(** * SqlComposer: composition of MyBatis statements from [<sql>] fragments

    A shallow embedding of [src/core/SqlComposer.ts] (with [readFile] of
    [utils/fileUtils]) and of the LRU cache contract of the mapping cache.

    JavaScript strings are modelled as lists of code units restricted to
    U+0000..U+00FF ([ascii]).  The regular expressions of the source are
    written as values of a small regex syntax and run by a backtracking
    matcher in continuation-passing style, following the matcher semantics
    of ECMAScript (leftmost match, greedy and lazy quantifiers tried in
    priority order, captures, case-insensitive back-references).

    [resolveIncludes] recurses without a bound of its own, so it takes the
    number of frames the call stack has room for and fails when they are
    used up, as the runtime does; [composeSql] catches that failure like
    any other and returns [null].  The file system and the console are the
    state that [composeSql] is run in.

    The definitions come first; the facts about the matcher, the
    properties of the composer and the LRU bound follow. *)

From Stdlib Require Import Ascii String.
From stdpp Require Import gmap strings list fin_maps.

Set Default Proof Using "Type".
Open Scope list_scope.

(** ** Strings *)

Abbreviation jsstring := (list ascii).

(** String literals of the source are written with [js]. *)
Definition js (s : string) : jsstring := list_ascii_of_string s.

Definition code (c : ascii) : N := N_of_ascii c.

Definition chr_eqb (a b : ascii) : bool := Ascii.eqb a b.

(** [\s]: WhiteSpace and LineTerminator code units below U+0100
    (TAB, LF, VT, FF, CR, SP, NBSP). *)
Definition is_space (c : ascii) : bool :=
  let n := code c in
  ((9 <=? n) && (n <=? 13) || (n =? 32) || (n =? 160))%N.

(** The double quote and the single quote. *)
Definition DQ : ascii := "034"%char.
Definition SQ : ascii := "039"%char.

Definition is_quote (c : ascii) : bool := chr_eqb c DQ || chr_eqb c SQ.

(** The class of every code unit but the two quotes. *)
Definition not_quote (c : ascii) : bool := negb (is_quote c).

(** [[^>]] *)
Definition not_gt (c : ascii) : bool := negb (chr_eqb c ">"%char).

(** [[\s\S]] *)
Definition any_char (c : ascii) : bool := is_space c || negb (is_space c).

Definition LF : ascii := "010"%char.

(** Canonicalize of the [i] flag (non-unicode mode): the simple upper-case
    mapping, kept only when it stays a single code unit and does not map a
    non-ASCII unit into ASCII.  Below U+0100 the units whose upper case
    leaves the range (U+00B5, U+00FF) or is not a single unit (U+00DF) are
    canonical only to themselves. *)
Definition canonicalize (c : ascii) : ascii :=
  let n := code c in
  if ((97 <=? n) && (n <=? 122))%N then ascii_of_N (n - 32)
  else if ((224 <=? n) && (n <=? 254) && negb (n =? 247))%N then ascii_of_N (n - 32)
  else c.

Definition chr_match (ic : bool) (a b : ascii) : bool :=
  if ic then chr_eqb (canonicalize a) (canonicalize b) else chr_eqb a b.

Arguments chr_eqb : simpl never.
Arguments canonicalize : simpl never.
Arguments is_space : simpl never.

(** Every code unit of the model. *)
Definition all_units : list ascii := map ascii_of_nat (seq 0 256).

(** Membership in a class under the [i] flag: some member of the class
    has the canonical form of the code unit. *)
Definition class_fold (p : ascii -> bool) (ch : ascii) : bool :=
  existsb (fun a => p a && chr_eqb (canonicalize a) (canonicalize ch))
          all_units.

(** ** Regular expressions *)

Inductive regex : Type :=
  | Chr (c : ascii)                    (* a pattern character *)
  | Cls (p : ascii -> bool)            (* a character class or class escape *)
  | Eps                                (* the empty alternative *)
  | Seq (r1 r2 : regex)
  | Alt (r1 r2 : regex)                (* r1|r2 *)
  | Star (greedy : bool) (p : ascii -> bool)  (* p* and p*? over a class *)
  | Grp (i : nat) (r : regex)          (* capturing group number i *)
  | Bref (i : nat).                    (* back-reference \i *)

(** [p+] *)
Definition Plus (p : ascii -> bool) : regex := Seq (Cls p) (Star true p).

(** [r?] (greedy: [r] is tried first) *)
Definition Opt (r : regex) : regex := Alt r Eps.

(** A run of pattern characters. *)
Fixpoint Lit (s : jsstring) : regex :=
  match s with
  | [] => Eps
  | c :: t => Seq (Chr c) (Lit t)
  end.

Fixpoint Cat (rs : list regex) : regex :=
  match rs with
  | [] => Eps
  | [r] => r
  | r :: t => Seq r (Cat t)
  end.

(** Captures: group number to captured text, latest binding first. *)
Abbreviation captures := (list (nat * jsstring)).

Fixpoint capture (i : nat) (cs : captures) : option jsstring :=
  match cs with
  | [] => None
  | (j, v) :: t => if Nat.eqb i j then Some v else capture i t
  end.

(** The state handed to a continuation: the rest of the input and the
    captures so far. *)
Abbreviation mstate := (jsstring * captures)%type.
Abbreviation cont := (jsstring -> captures -> option mstate).

(** [t] is a prefix of [s] up to the [i] flag; returns the rest of [s]. *)
Fixpoint strip_prefix (ic : bool) (t s : jsstring) : option jsstring :=
  match t, s with
  | [], _ => Some s
  | _ :: _, [] => None
  | a :: t', b :: s' => if chr_match ic a b then strip_prefix ic t' s' else None
  end.

(** [p*]: as many as possible first, giving back one at a time. *)
Fixpoint star_greedy (p : ascii -> bool) (k : jsstring -> option mstate)
    (s : jsstring) : option mstate :=
  match s with
  | c :: t =>
      if p c then
        match star_greedy p k t with
        | Some x => Some x
        | None => k s
        end
      else k s
  | [] => k s
  end.

(** [p*?]: as few as possible first, taking one more at a time. *)
Fixpoint star_lazy (p : ascii -> bool) (k : jsstring -> option mstate)
    (s : jsstring) : option mstate :=
  match k s with
  | Some x => Some x
  | None =>
      match s with
      | c :: t => if p c then star_lazy p k t else None
      | [] => None
      end
  end.

(** The matcher of a pattern: [rmatch ic r s cs k] matches [r] at the start
    of [s] and calls [k] on what is left; a failing continuation makes the
    matcher try its next choice. *)
Fixpoint rmatch (ic : bool) (r : regex) (s : jsstring) (cs : captures)
    (k : cont) : option mstate :=
  match r with
  | Chr c =>
      match s with
      | x :: t => if chr_match ic c x then k t cs else None
      | [] => None
      end
  | Cls p =>
      match s with
      | x :: t => if p x then k t cs else None
      | [] => None
      end
  | Eps => k s cs
  | Seq r1 r2 => rmatch ic r1 s cs (fun s' cs' => rmatch ic r2 s' cs' k)
  | Alt r1 r2 =>
      match rmatch ic r1 s cs k with
      | Some x => Some x
      | None => rmatch ic r2 s cs k
      end
  | Star true p => star_greedy p (fun s' => k s' cs) s
  | Star false p => star_lazy p (fun s' => k s' cs) s
  | Grp i r' =>
      rmatch ic r' s cs
        (fun s' cs' => k s' ((i, take (length s - length s') s) :: cs'))
  | Bref i =>
      match capture i cs with
      | None => k s cs
      | Some t =>
          match strip_prefix ic t s with
          | Some s' => k s' cs
          | None => None
          end
      end
  end.

(** What the matcher computes, as a relation: [matches ic r s cs s' cs']
    holds when [r] can match a prefix of [s] leaving [s'], taking the
    captures from [cs] to [cs']. *)
Inductive matches (ic : bool)
    : regex -> jsstring -> captures -> jsstring -> captures -> Prop :=
  | matches_chr c x t cs :
      chr_match ic c x = true -> matches ic (Chr c) (x :: t) cs t cs
  | matches_cls p x t cs :
      p x = true -> matches ic (Cls p) (x :: t) cs t cs
  | matches_eps s cs : matches ic Eps s cs s cs
  | matches_seq r1 r2 s cs s1 cs1 s2 cs2 :
      matches ic r1 s cs s1 cs1 -> matches ic r2 s1 cs1 s2 cs2 ->
      matches ic (Seq r1 r2) s cs s2 cs2
  | matches_alt_l r1 r2 s cs s' cs' :
      matches ic r1 s cs s' cs' -> matches ic (Alt r1 r2) s cs s' cs'
  | matches_alt_r r1 r2 s cs s' cs' :
      matches ic r2 s cs s' cs' -> matches ic (Alt r1 r2) s cs s' cs'
  | matches_star_stop g p s cs : matches ic (Star g p) s cs s cs
  | matches_star_step g p x t cs s' :
      p x = true -> matches ic (Star g p) t cs s' cs ->
      matches ic (Star g p) (x :: t) cs s' cs
  | matches_grp i r s cs s' cs' :
      matches ic r s cs s' cs' ->
      matches ic (Grp i r) s cs s' ((i, take (length s - length s') s) :: cs')
  | matches_bref_undefined i s cs :
      capture i cs = None -> matches ic (Bref i) s cs s cs
  | matches_bref i t s s' cs :
      capture i cs = Some t -> strip_prefix ic t s = Some s' ->
      matches ic (Bref i) s cs s' cs.

(** A lower bound on the length of the matches of a pattern. *)
Fixpoint min_length (r : regex) : nat :=
  match r with
  | Chr _ | Cls _ => 1
  | Eps | Star _ _ | Bref _ => 0
  | Seq r1 r2 => min_length r1 + min_length r2
  | Alt r1 r2 => Nat.min (min_length r1) (min_length r2)
  | Grp _ r' => min_length r'
  end.

(** The pattern matches somewhere in the text. *)
Definition occurs (ic : bool) (r : regex) (s : jsstring) : Prop :=
  exists before rest after cs,
    s = before ++ rest /\ matches ic r rest [] after cs.

(** A match result: index of the match, matched text ([match[0]]) and the
    captures ([match[i]]). *)
Record rmatch_result : Type := MatchResult {
  m_index : nat;
  m_text : jsstring;
  m_caps : captures
}.

(** [m_group i m] is [match[i]] ([] when the group did not take part). *)
Definition m_group (i : nat) (m : rmatch_result) : jsstring :=
  default [] (capture i (m_caps m)).

(** Match at the start of [s]: length of the match and captures. *)
Definition match_here (ic : bool) (r : regex) (s : jsstring)
    : option (nat * captures) :=
  match rmatch ic r s [] (fun s' cs' => Some (s', cs')) with
  | Some (rest, cs) => Some (length s - length rest, cs)
  | None => None
  end.

(** [RegExp.prototype.exec] from index 0 (also [String.prototype.match]
    without the [g] flag): the leftmost match. *)
Fixpoint regex_exec (ic : bool) (r : regex) (s : jsstring)
    : option rmatch_result :=
  match match_here ic r s with
  | Some (len, cs) => Some (MatchResult 0 (take len s) cs)
  | None =>
      match s with
      | [] => None
      | _ :: t =>
          match regex_exec ic r t with
          | Some m => Some (MatchResult (S (m_index m)) (m_text m) (m_caps m))
          | None => None
          end
      end
  end.

(** [RegExp.prototype.test] from index 0. *)
Definition regex_test (ic : bool) (r : regex) (s : jsstring) : bool :=
  bool_decide (is_Some (regex_exec ic r s)).

(** The loop [while ((match = re.exec(s)) !== null)] of a [g] regex, and
    the matches collected by [String.prototype.replace] with a [g] regex:
    every match in turn, each search starting where the previous match
    ended.  [skip] counts the code units of the current match still to be
    passed over, [pos] is the index of the head of [s].  After an empty
    match the search moves on by one code unit, as [replace] does. *)
Fixpoint exec_loop (ic : bool) (r : regex) (skip pos : nat) (s : jsstring)
    : list rmatch_result :=
  match skip with
  | S k =>
      match s with
      | [] => []
      | _ :: t => exec_loop ic r k (S pos) t
      end
  | 0 =>
      match match_here ic r s with
      | Some (len, cs) =>
          MatchResult pos (take len s) cs ::
            match s with
            | [] => []
            | _ :: t => exec_loop ic r (pred len) (S pos) t
            end
      | None =>
          match s with
          | [] => []
          | _ :: t => exec_loop ic r 0 (S pos) t
          end
      end
  end.

Definition exec_all (ic : bool) (r : regex) (s : jsstring)
    : list rmatch_result :=
  exec_loop ic r 0 0 s.

(** [s.replace(re, f)] for a [g] regex [re] and a replacer function [f]:
    the text between matches is copied, each match is replaced by [f]. *)
Fixpoint replace_loop (ic : bool) (r : regex) (f : rmatch_result -> jsstring)
    (skip pos : nat) (s : jsstring) : jsstring :=
  match skip with
  | S k =>
      match s with
      | [] => []
      | _ :: t => replace_loop ic r f k (S pos) t
      end
  | 0 =>
      match match_here ic r s with
      | Some (len, cs) =>
          f (MatchResult pos (take len s) cs) ++
            match s with
            | [] => []
            | c :: t =>
                match len with
                | 0 => c :: replace_loop ic r f 0 (S pos) t
                | S k => replace_loop ic r f k (S pos) t
                end
            end
      | None =>
          match s with
          | [] => []
          | c :: t => c :: replace_loop ic r f 0 (S pos) t
          end
      end
  end.

Definition replace_all (ic : bool) (r : regex) (f : rmatch_result -> jsstring)
    (s : jsstring) : jsstring :=
  replace_loop ic r f 0 0 s.

(** ** String methods *)

(** First occurrence of [t] in [s]: the text before it and the text after
    it ([indexOf]). *)
Fixpoint find_first (t s : jsstring) : option (jsstring * jsstring) :=
  match strip_prefix false t s with
  | Some rest => Some ([], rest)
  | None =>
      match s with
      | [] => None
      | c :: s' =>
          match find_first t s' with
          | Some (before, after) => Some (c :: before, after)
          | None => None
          end
      end
  end.

(** GetSubstitution for a string pattern (no captures, no named groups):
    in the replacement text [$$] stands for a dollar, [$&] for the matched
    text, [$`] for the text before the match and [$'] for the text after
    it; a dollar followed by anything else stays as it is. *)
Fixpoint getSubstitution (matched before after template : jsstring)
    : jsstring :=
  match template with
  | [] => []
  | c :: rest =>
      if chr_eqb c "$"%char then
        match rest with
        | [] => [c]
        | d :: rest' =>
            if chr_eqb d "$"%char then
              "$"%char :: getSubstitution matched before after rest'
            else if chr_eqb d "&"%char then
              matched ++ getSubstitution matched before after rest'
            else if chr_eqb d "`"%char then
              before ++ getSubstitution matched before after rest'
            else if chr_eqb d SQ then
              after ++ getSubstitution matched before after rest'
            else c :: getSubstitution matched before after rest
        end
      else c :: getSubstitution matched before after rest
  end.

(** [s.replace(pattern, replacement)] with two strings: the first
    occurrence of [pattern] only, the replacement text read as a
    template. *)
Definition string_replace (s pattern replacement : jsstring) : jsstring :=
  match find_first pattern s with
  | Some (before, after) =>
      before ++ getSubstitution pattern before after replacement ++ after
  | None => s
  end.

Fixpoint trim_start (s : jsstring) : jsstring :=
  match s with
  | c :: t => if is_space c then trim_start t else s
  | [] => []
  end.

(** [s.trim()] *)
Definition trim (s : jsstring) : jsstring :=
  rev (trim_start (rev (trim_start s))).

(** The last [n] elements of a list. *)
Definition last_n {A : Type} (n : nat) (l : list A) : list A :=
  drop (length l - n) l.

(** Number of line feeds of a string. *)
Definition lf_count (s : jsstring) : nat :=
  length (filter (fun c => c = LF) s).

(** [c.repeat(n)] for a one-unit string. *)
Definition repeat_chr (c : ascii) (n : nat) : jsstring := replicate n c.

(** ** SqlComposer.ts *)

(** [/<!--[\s\S]*?-->/g] *)
Definition commentRegex : regex :=
  Cat [Lit (js "<!--"); Star false any_char; Lit (js "-->")].

(** [(match.match(/\n/g) || []).length] *)
Definition newlineCount (m : jsstring) : nat :=
  length (exec_all false (Chr LF) m).

Definition removeXmlComments (content : jsstring) : jsstring :=
  match content with
  | [] => []
  | _ =>
      replace_all false commentRegex
        (fun m => repeat_chr LF (newlineCount (m_text m))) content
  end.

(** The pattern of a fragment declaration, flags [gi]: an opening [sql]
    tag whose first attribute is a quoted [id] (group 1), the body up to
    the nearest closing tag (group 2). *)
Definition sqlFragmentRegex : regex :=
  Cat [Lit (js "<sql"); Plus is_space; Lit (js "id"); Star true is_space;
       Chr "="; Star true is_space; Cls is_quote; Grp 1 (Plus not_quote);
       Cls is_quote; Star true not_gt; Chr ">";
       Grp 2 (Star false any_char); Lit (js "</sql>")].

(** The fragment declarations of a document in document order: the pairs
    [(match[1], match[2].trim())] of the loop of [extractSqlFragments]. *)
Definition fragmentDeclarations (content : jsstring)
    : list (jsstring * jsstring) :=
  map (fun m => (m_group 1 m, trim (m_group 2 m)))
      (exec_all true sqlFragmentRegex (removeXmlComments content)).

Definition extractSqlFragments (content : jsstring)
    : gmap jsstring jsstring :=
  foldl (fun fragments d => <[d.1 := d.2]> fragments) ∅
        (fragmentDeclarations content).

(** The syntax characters escaped by [escapeRegex]. *)
Definition is_regex_special (c : ascii) : bool :=
  existsb (chr_eqb c) (js ".*+?^${}()|[]\").

(** [str.replace(/[.*+?^${}()|[\]\\]/g, '\\$&')]; the template uses the
    matched text only. *)
Definition escapeRegex (str : jsstring) : jsstring :=
  replace_all false (Cls is_regex_special)
    (fun m => getSubstitution (m_text m) [] [] (js "\$&")) str.

(** The pattern that [new RegExp] reads from an escaped identifier: a
    backslash makes the next character a pattern character, every other
    character stands for itself ([escapeRegex] leaves no syntax character
    unescaped and no backslash at the end). *)
Fixpoint literalPattern (p : jsstring) : regex :=
  match p with
  | [] => Eps
  | c :: t =>
      if chr_eqb c "\"%char then
        match t with
        | d :: t' => Seq (Chr d) (literalPattern t')
        | [] => Chr c
        end
      else Seq (Chr c) (literalPattern t)
  end.

(** The pattern of the statement with a given id, flag [i]: one of the
    four statement tags (group 1), attributes in which [id = 'statementId']
    occurs, the body up to the nearest closing tag of the same name
    (group 2). *)
Definition statementRegex (statementId : jsstring) : regex :=
  Cat [Chr "<";
       Grp 1 (Alt (Lit (js "select")) (Alt (Lit (js "insert"))
             (Alt (Lit (js "update")) (Lit (js "delete")))));
       Plus is_space; Star true not_gt; Lit (js "id"); Star true is_space;
       Chr "="; Star true is_space; Cls is_quote;
       literalPattern (escapeRegex statementId);
       Cls is_quote; Star true not_gt; Chr ">";
       Grp 2 (Star false any_char); Lit (js "</"); Bref 1; Chr ">"].

Definition extractStatementContent (content statementId : jsstring)
    : option jsstring :=
  let contentWithoutComments := removeXmlComments content in
  match regex_exec true (statementRegex statementId) contentWithoutComments with
  | None => None
  | Some m => Some (trim (m_group 2 m))
  end.

(** The inclusion marker, flags [gi]; group 1 is the referenced id. *)
Definition includeRegex : regex :=
  Cat [Lit (js "<include"); Plus is_space; Lit (js "refid");
       Star true is_space; Chr "="; Star true is_space; Cls is_quote;
       Grp 1 (Plus not_quote); Cls is_quote; Star true is_space;
       Opt (Chr "/"); Chr ">"].

Definition circularAnnotation (refId : jsstring) : jsstring :=
  js "/* Circular reference detected: " ++ refId ++ js " */".

Definition notFoundAnnotation (refId : jsstring) : jsstring :=
  js "/* Fragment not found: " ++ refId ++ js " */".

(** The body of the [while] loop of [resolveIncludes] run over the matches
    found in [sql]; [resolved] is the text rewritten so far and [recurse]
    the recursive call.  [None] is a call that did not return. *)
Fixpoint expandMatches
    (recurse : jsstring -> gset jsstring -> option jsstring)
    (fragments : gmap jsstring jsstring) (visited : gset jsstring)
    (matches : list rmatch_result) (resolved : jsstring) : option jsstring :=
  match matches with
  | [] => Some resolved
  | m :: rest =>
      let refId := m_group 1 m in
      let includeTag := m_text m in
      if bool_decide (refId ∈ visited) then
        expandMatches recurse fragments visited rest
          (string_replace resolved includeTag (circularAnnotation refId))
      else
        match fragments !! refId with
        | Some (c :: fragmentContent) =>
            let newVisited := {[refId]} ∪ visited in
            match recurse (c :: fragmentContent) newVisited with
            | Some resolvedFragment =>
                expandMatches recurse fragments visited rest
                  (string_replace resolved includeTag resolvedFragment)
            | None => None
            end
        | _ =>
            expandMatches recurse fragments visited rest
              (string_replace resolved includeTag (notFoundAnnotation refId))
        end
  end.

(** [resolveIncludes sql fragments visited] on a call stack with room for
    [stack] nested calls: [None] when the recursion needs more than that
    (the RangeError of an exhausted stack). *)
Fixpoint resolveIncludes (stack : nat) (sql : jsstring)
    (fragments : gmap jsstring jsstring) (visited : gset jsstring)
    : option jsstring :=
  match stack with
  | 0 => None
  | S depth =>
      let matches := exec_all true includeRegex sql in
      let hasIncludes := negb (bool_decide (matches = [])) in
      match
        expandMatches (fun s v => resolveIncludes depth s fragments v)
          fragments visited matches sql
      with
      | None => None
      | Some resolved =>
          if hasIncludes && regex_test true includeRegex resolved
          then resolveIncludes depth resolved fragments visited
          else Some resolved
      end
  end.

(** The text has an inclusion marker: the marker pattern matches
    somewhere in it. *)
Definition hasMarker (sql : jsstring) : Prop :=
  occurs true includeRegex sql.

(** The lookup of [extractStatementContent] finds something: the
    statement pattern of the id matches somewhere in the document without
    its comments. *)
Definition declaresStatement (content statementId : jsstring) : Prop :=
  occurs true (statementRegex statementId) (removeXmlComments content).

(** The world [composeSql] runs in: the readable files and the lines
    written to the console. *)
Record world : Type := World {
  files : jsstring -> option jsstring;
  console : list jsstring
}.

(** [readFile] of utils/fileUtils: the content of the file, the empty
    string when reading fails (the [catch] branch). *)
Definition readFile (w : world) (filePath : jsstring) : jsstring :=
  match files w filePath with
  | Some content => content
  | None => []
  end.

Definition console_error (line : jsstring) (w : world) : world :=
  World (files w) (console w ++ [line]).

(** How a call of [composeSql] ends: with the composed text, with [null]
    from the not-found test, or with [null] from the [catch] branch. *)
Inductive outcome : Type :=
  | Composed (sql : jsstring)
  | NotFound
  | Caught.

(** The value the promise resolves to ([None] is [null]). *)
Definition returned (o : outcome) : option jsstring :=
  match o with
  | Composed sql => Some sql
  | NotFound | Caught => None
  end.

Definition composeSql (stack : nat) (w : world)
    (xmlFilePath statementId : jsstring) : outcome * world :=
  let content := readFile w xmlFilePath in
  let fragments := extractSqlFragments content in
  match extractStatementContent content statementId with
  | None | Some [] => (NotFound, w)
  | Some statementContent =>
      match resolveIncludes stack statementContent fragments ∅ with
      | Some resolved => (Composed resolved, w)
      | None =>
          (Caught, console_error (js "[SqlComposer] Error composing SQL:") w)
      end
  end.

(** A world with one readable file. *)
Definition one_file (path content : jsstring) : world :=
  World (fun p => if bool_decide (p = path) then Some content else None) [].


(** ** The LRU cache of the mapping cache *)

Module LRUCache.
Section Cache.
Context {K V : Type} `{EqDecision K}.

(** Modelled from the spec: the LRU cache, whose source (the file mapper)
    is not among the source files.  A key-value store of fixed capacity;
    the entries are kept in order of use, least recently used first. *)
Record t : Type := Cache {
  capacity : nat;
  entries : list (K * V)
}.

(** Modelled from the spec: a new cache of the given capacity (the LRU
    cache source is missing). *)
Definition empty (n : nat) : t := Cache n [].

(** Modelled from the spec: [size()] (the LRU cache source is missing). *)
Definition size (c : t) : nat := length (entries c).

(** Modelled from the spec: the value stored under a key, if any (the LRU
    cache source is missing). *)
Fixpoint assoc (k : K) (es : list (K * V)) : option V :=
  match es with
  | [] => None
  | (k', v) :: rest => if decide (k' = k) then Some v else assoc k rest
  end.

(** Modelled from the spec: the entries without the one of key [k] (the
    LRU cache source is missing). *)
Definition without (k : K) (es : list (K * V)) : list (K * V) :=
  filter (fun e => e.1 <> k) es.

(** Modelled from the spec: [evictLeastRecentlyUsed()] drops the entry
    used longest ago (the LRU cache source is missing). *)
Definition evictLeastRecentlyUsed (c : t) : t :=
  Cache (capacity c) (drop 1 (entries c)).

(** Modelled from the spec: [put(key, value)] inserts or updates, marks
    the entry most recently used, and evicts when the size exceeds the
    capacity (the LRU cache source is missing). *)
Definition put (k : K) (v : V) (c : t) : t :=
  let c' := Cache (capacity c) (without k (entries c) ++ [(k, v)]) in
  if capacity c <? size c' then evictLeastRecentlyUsed c' else c'.

(** Modelled from the spec: [get(key)] returns the value or absent, and
    promotes a touched entry to most recently used (the LRU cache source
    is missing). *)
Definition get (k : K) (c : t) : option V * t :=
  match assoc k (entries c) with
  | Some v => (Some v, Cache (capacity c) (without k (entries c) ++ [(k, v)]))
  | None => (None, c)
  end.

(** Modelled from the spec: [remove(key)] (the LRU cache source is
    missing). *)
Definition remove (k : K) (c : t) : t :=
  Cache (capacity c) (without k (entries c)).

(** Modelled from the spec: [clear()] (the LRU cache source is missing). *)
Definition clear (c : t) : t := Cache (capacity c) [].

(** Modelled from the spec: a run of [put]s, in order, with no reads in
    between (the LRU cache source is missing). *)
Definition putAll (kvs : list (K * V)) (c : t) : t :=
  foldl (fun c e => put e.1 e.2 c) c kvs.

End Cache.
Arguments t : clear implicits.
End LRUCache.

(** ** Documents used below *)

(** Fragment [A], fragment [B] that includes [A], statement [S] that
    includes [B]. *)
Definition nestedDocument : jsstring := js
"<mapper namespace='com.example.mapper.TestMapper'>
  <sql id='A'>x, y</sql>
  <sql id='B'><include refid='A'/>, z</sql>
  <select id='S'>select <include refid='B'/> from t</select>
</mapper>".

(** Two declarations of the fragment id [cols]. *)
Definition duplicateDocument : jsstring := js
"<mapper namespace='com.example.mapper.TestMapper'>
  <sql id='cols'>id</sql>
  <sql id='cols'>id, name</sql>
  <sql id='other'>name</sql>
</mapper>".

(** A statement without inclusion markers and one with an empty body. *)
Definition plainDocument : jsstring := js
"<mapper namespace='com.example.mapper.TestMapper'>
  <select id='selectUser' resultType='User'>
    select id, name from users
  </select>
  <select id='empty'>
  </select>
</mapper>".

(** A fragment whose text is a dollar sign between single quotes, and a
    statement that includes it and a fragment that is not declared. *)
Definition dollarDocument : jsstring := js
"<mapper namespace='com.example.mapper.TestMapper'>
  <sql id='P'>'$'</sql>
  <select id='s'>select <include refid='P'/> from t <include refid='M'/></select>
</mapper>".

(** A fragment [C] that includes itself, a fragment [D] whose text is a
    dollar sign and a single quote, and a statement that includes [C] once
    and [D] twice. *)
Definition cyclicDocument : jsstring := js
"<mapper namespace='com.example.mapper.TestMapper'>
  <sql id='C'><include refid='C'/></sql>
  <sql id='D'>$'</sql>
  <select id='s'><include refid='C'/><include refid='D'/><include refid='D'/></select>
</mapper>".

(** The body of the statement of the cyclic document, and the text that
    a pass over it leaves. *)
Definition cyclicStatement : jsstring :=
  js "<include refid='C'/><include refid='D'/><include refid='D'/>".

Definition cyclicRewritten : jsstring :=
  js "/* Circular reference detected: C */<include refid='D'/><include refid='D'/>".

(** The fragment map with the one fragment [P] of the dollar document. *)
Definition dollarFragments : gmap jsstring jsstring :=
  {[ js "P" := js "'$'" ]}.

(** The cycle of the unit tests: [fragment_a] and [fragment_b] include
    each other. *)
Definition circularDocument : jsstring := js
"<mapper namespace='com.example.mapper.TestMapper'>
    <sql id='fragment_a'>
        <include refid='fragment_b'/>
    </sql>

    <sql id='fragment_b'>
        <include refid='fragment_a'/>
    </sql>

    <select id='selectWithCircular' resultType='User'>
        select * from users
        <include refid='fragment_a'/>
    </select>
</mapper>".

(** ** The rest of SqlComposer.ts *)

(** [\w] *)
Definition is_word (c : ascii) : bool :=
  let n := code c in
  ((48 <=? n) && (n <=? 57) || (65 <=? n) && (n <=? 90) ||
   (97 <=? n) && (n <=? 122) || (n =? 95))%N.

Arguments is_word : simpl never.

(** [/<\w+[^>]*\/>/g]: a self-closing tag. *)
Definition selfClosingTagRegex : regex :=
  Cat [Chr "<"; Plus is_word; Star true not_gt; Lit (js "/>")].

(** The opening and closing tags of dynamic SQL, flags [gi]; the group of
    tag names does not capture. *)
Definition dynamicTagRegex : regex :=
  Cat [Chr "<"; Opt (Chr "/");
       Alt (Lit (js "if")) (Alt (Lit (js "where")) (Alt (Lit (js "trim"))
       (Alt (Lit (js "foreach")) (Alt (Lit (js "choose")) (Alt (Lit (js "when"))
       (Alt (Lit (js "otherwise")) (Alt (Lit (js "set")) (Lit (js "bind")))))))));
       Star true not_gt; Chr ">"].

(** [cleanupXmlTags]: both replacements put the empty string in place of
    each match. *)
Definition cleanupXmlTags (sql : jsstring) : jsstring :=
  let cleaned := replace_all false selfClosingTagRegex (fun _ => []) sql in
  let cleaned := replace_all true dynamicTagRegex (fun _ => []) cleaned in
  trim cleaned.

(** The marker pattern of [hasIncludes]: no flag, no group. *)
Definition hasIncludesRegex : regex :=
  Cat [Lit (js "<include"); Plus is_space; Lit (js "refid");
       Star true is_space; Chr "="; Star true is_space; Cls is_quote;
       Plus not_quote; Cls is_quote; Star true is_space;
       Opt (Chr "/"); Chr ">"].

(** [hasIncludes]: no step of it can throw, so the [catch] branch is left
    out. *)
Definition hasIncludes (w : world) (xmlFilePath statementId : jsstring)
    : bool :=
  let content := readFile w xmlFilePath in
  match extractStatementContent content statementId with
  | None | Some [] => false
  | Some statementContent => regex_test false hasIncludesRegex statementContent
  end.

(** A pattern with its groups taken off. *)
Fixpoint ungroup (r : regex) : regex :=
  match r with
  | Grp _ r' => ungroup r'
  | Seq r1 r2 => Seq (ungroup r1) (ungroup r2)
  | Alt r1 r2 => Alt (ungroup r1) (ungroup r2)
  | _ => r
  end.

Fixpoint no_bref (r : regex) : bool :=
  match r with
  | Bref _ => false
  | Grp _ r' => no_bref r'
  | Seq r1 r2 | Alt r1 r2 => no_bref r1 && no_bref r2
  | _ => true
  end.

(** The pattern character every match of the pattern starts with. *)
Fixpoint head_chr (r : regex) : option ascii :=
  match r with
  | Chr c => Some c
  | Seq r1 _ => head_chr r1
  | Grp _ r' => head_chr r'
  | _ => None
  end.

(** Two texts that are equal up to letter case. *)
Definition eq_ignore_case (a b : jsstring) : Prop :=
  strip_prefix true a b = Some [].

(** The four statement tags. *)
Definition statementTags : list jsstring :=
  [js "select"; js "insert"; js "update"; js "delete"].

(** ** utils/fileUtils.ts *)

(** [s.split('\n')] *)
Fixpoint split_lf (s : jsstring) : list jsstring :=
  match s with
  | [] => [[]]
  | c :: t =>
      if chr_eqb c LF then [] :: split_lf t
      else
        match split_lf t with
        | l :: ls => (c :: l) :: ls
        | [] => [[c]]
        end
  end.

(** [lines.join('\n')] *)
Fixpoint join_lf (lines : list jsstring) : jsstring :=
  match lines with
  | [] => []
  | [l] => l
  | l :: rest => l ++ LF :: join_lf rest
  end.

(** [a.slice(0, end)] for an integer [end]: a negative [end] counts from
    the end of the array. *)
Definition slice_to {A : Type} (end_ : Z) (a : list A) : list A :=
  if (end_ <? 0)%Z
  then take (Z.to_nat (Z.max (Z.of_nat (length a) + end_) 0)) a
  else take (Z.to_nat end_) a.

(** [readFirstLines] for an integer [lineCount]: the empty string when
    reading fails. *)
Definition readFirstLines (w : world) (filePath : jsstring) (lineCount : Z)
    : jsstring :=
  match files w filePath with
  | Some content => join_lf (slice_to lineCount (split_lf content))
  | None => []
  end.

(** [normalizePath]: [filePath.replace(/\\/g, '/')]. *)
Definition normalizePath (filePath : jsstring) : jsstring :=
  replace_all false (Chr "\")
    (fun m => getSubstitution (m_text m) [] [] (js "/")) filePath.

(** ** The hover providers *)

(** [s.indexOf(searchString, position)] *)
Definition indexOf (searchString : jsstring) (position : Z) (s : jsstring)
    : Z :=
  let start := Nat.min (Z.to_nat (Z.max 0 position)) (length s) in
  match find_first searchString (drop start s) with
  | Some (before, _) => Z.of_nat (start + length before)
  | None => (-1)%Z
  end.

(** What a hover shows: the markdown text and the code block appended to
    it, with the language of the block. *)
Record Hover : Type := MkHover {
  hover_markdown : jsstring;
  hover_codeblock : jsstring;
  hover_language : jsstring;
  hover_isTrusted : bool
}.

Definition composedSqlHover (name composedSql : jsstring) : Hover :=
  MkHover (js "**Composed SQL for `" ++ name ++ js "`**" ++ [LF; LF])
          composedSql (js "sql") true.

Module XmlSqlHoverProvider.

(** The statement tag on a line, flag [i]; group 2 is the id. *)
Definition statementRegex : regex :=
  Cat [Chr "<";
       Grp 1 (Alt (Lit (js "select")) (Alt (Lit (js "insert"))
             (Alt (Lit (js "update")) (Lit (js "delete")))));
       Plus is_space; Star true not_gt; Lit (js "id"); Star true is_space;
       Chr "="; Star true is_space; Cls is_quote; Grp 2 (Plus not_quote);
       Cls is_quote].

(** The id attribute, flag [i]; group 1 is its value. *)
Definition idAttrRegex : regex :=
  Cat [Lit (js "id"); Star true is_space; Chr "="; Star true is_space;
       Cls is_quote; Grp 1 (Plus not_quote); Cls is_quote].

(** [provideHover] from the text of the line under the cursor
    ([document.lineAt(position.line).text]) and the column of the cursor
    ([position.character]); [fsPath] is [document.uri.fsPath]. *)
Definition provideHover (stack : nat) (w : world)
    (fsPath lineText : jsstring) (character : Z) : option Hover * world :=
  match regex_exec true statementRegex lineText with
  | None => (None, w)
  | Some m =>
      let statementId := m_group 2 m in
      match regex_exec true idAttrRegex lineText with
      | None => (None, w)
      | Some idMatch =>
          let idValueIndex :=
            indexOf (m_group 1 idMatch) (indexOf (js "id=") 0 lineText)
                    lineText in
          let idValueEndIndex :=
            (idValueIndex + Z.of_nat (length (m_group 1 idMatch)))%Z in
          if (character <? idValueIndex)%Z || (idValueEndIndex <? character)%Z
          then (None, w)
          else
            let '(o, w') := composeSql stack w fsPath statementId in
            match returned o with
            | None | Some [] => (None, w')
            | Some composedSql =>
                (Some (composedSqlHover statementId composedSql), w')
            end
      end
  end.

End XmlSqlHoverProvider.

Module JavaSqlHoverProvider.

(** A method as [extractJavaMethods] reports it. *)
Record JavaMethod : Type := MkJavaMethod {
  name : jsstring;
  line : nat;
  startColumn : nat;
  endColumn : nat
}.

(** [provideHover] from what its two collaborators deliver: [methods] is
    the result of [extractJavaMethods] for the document, [xmlPath] the
    result of [fileMapper.getXmlPath] ([None] for no path); the cursor is
    at [(positionLine, positionCharacter)]. *)
Definition provideHover (stack : nat) (w : world)
    (methods : list JavaMethod) (xmlPath : option jsstring)
    (positionLine positionCharacter : nat) : option Hover * world :=
  match
    find (fun m => Nat.eqb (line m) positionLine &&
                   (startColumn m <=? positionCharacter) &&
                   (positionCharacter <=? endColumn m)) methods
  with
  | None => (None, w)
  | Some method =>
      let methodName := name method in
      match xmlPath with
      | None | Some [] => (None, w)
      | Some path =>
          let '(o, w') := composeSql stack w path methodName in
          match returned o with
          | None | Some [] => (None, w')
          | Some composedSql =>
              (Some (composedSqlHover methodName composedSql), w')
          end
      end
  end.

End JavaSqlHoverProvider.

(** ** What the statement patterns read *)

(** [head] is the beginning of an opening statement tag, up to a quoted
    id: [<], a tag name that is one of the four statement tags up to
    letter case, white space, any text without [>], the two letters [id]
    up to letter case (they may be the end of a longer attribute name),
    [=] with optional white space around it, and [value] between two
    quotes. *)
Definition tagUpToId (tag value head : jsstring) : Prop :=
  exists name sp attrs kw w1 w2 q1 q2,
    head = js "<" ++ tag ++ sp ++ attrs ++ kw ++ w1 ++ js "=" ++ w2 ++
           q1 :: value ++ [q2] /\
    name ∈ statementTags /\ eq_ignore_case name tag /\
    sp <> [] /\ forallb is_space sp = true /\
    forallb not_gt attrs = true /\
    eq_ignore_case (js "id") kw /\
    forallb is_space w1 = true /\ forallb is_space w2 = true /\
    is_quote q1 = true /\ is_quote q2 = true.

(** [opening] is an opening statement tag that carries [statementId] up
    to letter case: the beginning up to the quoted id, then any text
    without [>], then [>]. *)
Definition openingTag (statementId tag opening : jsstring) : Prop :=
  exists head value attrs,
    opening = head ++ attrs ++ js ">" /\
    tagUpToId tag value head /\
    eq_ignore_case statementId value /\
    forallb not_gt attrs = true.

(** [closing] is the closing tag of [tag], up to letter case. *)
Definition closingTag (tag closing : jsstring) : Prop :=
  exists tag',
    closing = js "</" ++ tag' ++ js ">" /\ eq_ignore_case tag tag'.

(** [text] starts with a statement element that carries [statementId]:
    an opening tag, some text, and the closing tag of the same name. *)
Definition statementElement (statementId text : jsstring) : Prop :=
  exists tag opening body closing after,
    text = opening ++ body ++ closing ++ after /\
    openingTag statementId tag opening /\ closingTag tag closing.

(** The first statement element of [text] that carries [statementId],
    with its text up to the nearest closing tag: [text] is [before], the
    opening tag, the text [body] of the element, the closing tag and
    [after]; no closing tag of the element's name starts inside [body],
    and no statement element that carries the id starts inside
    [before]. *)
Definition firstStatementElement
    (statementId text before opening body closing after : jsstring) : Prop :=
  exists tag,
    text = before ++ opening ++ body ++ closing ++ after /\
    openingTag statementId tag opening /\ closingTag tag closing /\
    (forall b1 b2 c rest,
       body = b1 ++ b2 -> b2 <> [] ->
       b2 ++ closing ++ after = c ++ rest -> ~ closingTag tag c) /\
    (forall b1 b2,
       before = b1 ++ b2 -> b2 <> [] ->
       ~ statementElement statementId
           (b2 ++ opening ++ body ++ closing ++ after)).

(** Somewhere in [text] a statement element that carries [statementId]
    starts. *)
Definition hasStatementElement (statementId text : jsstring) : Prop :=
  exists before rest,
    text = before ++ rest /\ statementElement statementId rest.

(** [t] occurs in [s] up to letter case. *)
Definition occurs_ignore_case (t s : jsstring) : Prop :=
  exists before t' after, s = before ++ t' ++ after /\ eq_ignore_case t t'.

(** The pieces that the statement patterns start with: the tag name
    (group 1), the attributes up to the letters [id], the equals sign and
    the opening quote. *)
Definition tagHeadPieces : list regex :=
  [Chr "<";
   Grp 1 (Alt (Lit (js "select")) (Alt (Lit (js "insert"))
         (Alt (Lit (js "update")) (Lit (js "delete")))));
   Plus is_space; Star true not_gt; Lit (js "id"); Star true is_space;
   Chr "="; Star true is_space; Cls is_quote].

(** The pieces of [statementRegex] after the opening quote, up to the end
    of the opening tag. *)
Definition idAndTagEndPieces (statementId : jsstring) : list regex :=
  [literalPattern (escapeRegex statementId); Cls is_quote;
   Star true not_gt; Chr ">"].

(** The closing tag of [statementRegex]. *)
Definition statementClosing : regex :=
  Cat [Lit (js "</"); Bref 1; Chr ">"].

(** ** Pattern sources *)

(** SyntaxCharacter of the pattern grammar. *)
Definition is_syntax_character (c : ascii) : bool :=
  existsb (chr_eqb c) (js "^$\.*+?()[]{}|").

(** The text that a pattern source stands for when the source is made of
    pattern characters and identity escapes only: a character that is not
    a syntax character stands for itself, a backslash followed by a
    syntax character stands for that character.  A source with anything
    else in it (a syntax character that is not escaped, another escape, a
    backslash at the end) is not a literal. *)
Fixpoint readLiteral (source : jsstring) : option jsstring :=
  match source with
  | [] => Some []
  | c :: t =>
      if chr_eqb c "\"%char then
        match t with
        | d :: t' =>
            if is_syntax_character d
            then option_map (cons d) (readLiteral t')
            else None
        | [] => None
        end
      else if is_syntax_character c then None
      else option_map (cons c) (readLiteral t)
  end.

(** ** Mapping documents as XML *)

Module Xml.

(** An element of a mapping document as XML reads it: its name, its
    attributes in the order written, and the text between its opening and
    its closing tag. *)
Record element : Type := Element {
  el_name : jsstring;
  el_attributes : list (jsstring * jsstring);
  el_text : jsstring
}.

(** The value of the attribute called [n]; XML compares names letter by
    letter. *)
Fixpoint attribute (n : jsstring) (attrs : list (jsstring * jsstring))
    : option jsstring :=
  match attrs with
  | [] => None
  | (n', v) :: rest =>
      if bool_decide (n' = n) then Some v else attribute n rest
  end.

(** The ids of the statements of a document: the [id] attributes of its
    [select], [insert], [update] and [delete] elements. *)
Definition statementIds (es : list element) : list jsstring :=
  omap (fun e =>
          if bool_decide (el_name e ∈ statementTags)
          then attribute (js "id") (el_attributes e)
          else None) es.

(** The fragment declarations of a document in document order: id and
    text of its [sql] elements. *)
Definition fragments (es : list element) : list (jsstring * jsstring) :=
  omap (fun e =>
          if bool_decide (el_name e = js "sql")
          then option_map (fun id => (id, el_text e))
                          (attribute (js "id") (el_attributes e))
          else None) es.

(** The text of the last declaration of a fragment id. *)
Definition lastDeclared (id : jsstring) (es : list element)
    : option jsstring :=
  last (omap (fun d : jsstring * jsstring =>
                if bool_decide (d.1 = id) then Some d.2 else None)
             (fragments es)).

(** The document as a file has it. *)
Definition write_attribute (a : jsstring * jsstring) : jsstring :=
  js " " ++ a.1 ++ js "='" ++ a.2 ++ js "'".

Definition write_element (e : element) : jsstring :=
  js "<" ++ el_name e ++ concat (map write_attribute (el_attributes e)) ++
  js ">" ++ el_text e ++ js "</" ++ el_name e ++ js ">".

Definition write (es : list element) : jsstring :=
  js "<mapper namespace='com.example.mapper.UserMapper'>" ++
  concat (map write_element es) ++ js "</mapper>".

End Xml.

(** A statement with a [databaseId] attribute next to its id. *)
Definition databaseIdDocument : list Xml.element :=
  [Xml.Element (js "select")
     [(js "id", js "findUser"); (js "databaseId", js "mysql")]
     (js "select * from users")].

(** Two declarations of the fragment id [cols]; the second one has its
    [databaseId] attribute before its id. *)
Definition attributeOrderDocument : list Xml.element :=
  [Xml.Element (js "sql") [(js "id", js "cols")] (js "id");
   Xml.Element (js "sql")
     [(js "databaseId", js "mysql"); (js "id", js "cols")] (js "id, name");
   Xml.Element (js "select") [(js "id", js "findAll")]
     (js "select <include refid='cols'/> from users")].

(** ** The matcher *)

(** Every result of the matcher comes from a match of the pattern handed
    to the continuation. *)
Lemma star_greedy_sound ic p cs (k : jsstring -> option mstate) s x :
  star_greedy p k s = Some x ->
  exists s', matches ic (Star true p) s cs s' cs /\ k s' = Some x.
Proof.
  induction s as [|c t IH]; cbn [star_greedy]; intros Hx.
  - exists []. split; [constructor|done].
  - destruct (p c) eqn:Hp.
    + destruct (star_greedy p k t) as [y|] eqn:Hy.
      * destruct (IH Hx) as (s' & Hm & Hk).
        exists s'. split; [by constructor|done].
      * exists (c :: t). split; [constructor|done].
    + exists (c :: t). split; [constructor|done].
Qed.

Lemma star_lazy_sound ic p cs (k : jsstring -> option mstate) s x :
  star_lazy p k s = Some x ->
  exists s', matches ic (Star false p) s cs s' cs /\ k s' = Some x.
Proof.
  induction s as [|c t IH]; cbn [star_lazy]; intros Hx.
  - destruct (k []) eqn:Hk; [|done]. exists []. split; [constructor|congruence].
  - destruct (k (c :: t)) eqn:Hk.
    + exists (c :: t). split; [constructor|congruence].
    + destruct (p c) eqn:Hp; [|done].
      destruct (IH Hx) as (s' & Hm & Hk'). exists s'.
      split; [by constructor|done].
Qed.

Lemma rmatch_sound ic r : forall s cs (k : cont) x,
  rmatch ic r s cs k = Some x ->
  exists s' cs', matches ic r s cs s' cs' /\ k s' cs' = Some x.
Proof.
  induction r as [c|p| |r1 IH1 r2 IH2|r1 IH1 r2 IH2|g p|i r IH|i];
    intros s cs k x; cbn [rmatch]; intros Hx.
  - destruct s as [|y t]; [done|]. destruct (chr_match ic c y) eqn:Hc; [|done].
    exists t, cs. split; [by constructor|done].
  - destruct s as [|y t]; [done|]. destruct (p y) eqn:Hp; [|done].
    exists t, cs. split; [by constructor|done].
  - exists s, cs. split; [constructor|done].
  - destruct (IH1 _ _ _ _ Hx) as (s1 & cs1 & Hm1 & Hk1).
    destruct (IH2 _ _ _ _ Hk1) as (s2 & cs2 & Hm2 & Hk2).
    exists s2, cs2. split; [by econstructor|done].
  - destruct (rmatch ic r1 s cs k) as [y|] eqn:Hy.
    + destruct (IH1 _ _ _ _ Hy) as (s' & cs' & Hm & Hk).
      exists s', cs'. split; [by apply matches_alt_l|congruence].
    + destruct (IH2 _ _ _ _ Hx) as (s' & cs' & Hm & Hk).
      exists s', cs'. split; [by apply matches_alt_r|done].
  - destruct g.
    + destruct (star_greedy_sound ic p cs _ _ _ Hx) as (s' & Hm & Hk).
      by exists s', cs.
    + destruct (star_lazy_sound ic p cs _ _ _ Hx) as (s' & Hm & Hk).
      by exists s', cs.
  - destruct (IH _ _ _ _ Hx) as (s' & cs' & Hm & Hk).
    eexists _, _. split; [by constructor|done].
  - destruct (capture i cs) as [t|] eqn:Hcap.
    + destruct (strip_prefix ic t s) as [s'|] eqn:Hs; [|done].
      exists s', cs. split; [by econstructor|done].
    + exists s, cs. split; [by constructor|done].
Qed.

(** The matcher misses no match: when the pattern has a match after which
    the continuation succeeds, the matcher succeeds. *)
Lemma star_greedy_complete ic p cs (k : jsstring -> option mstate) s s' :
  matches ic (Star true p) s cs s' cs -> is_Some (k s') ->
  is_Some (star_greedy p k s).
Proof.
  intros Hm Hk. remember (Star true p) as r eqn:Hr.
  induction Hm; try discriminate; injection Hr as -> ->.
  - destruct s as [|c t]; cbn [star_greedy]; [done|].
    destruct (p c); [|done]. by destruct (star_greedy p k t).
  - cbn [star_greedy]. rewrite H.
    destruct (IHHm eq_refl Hk) as [y ->]. by eexists.
Qed.

Lemma star_lazy_complete ic p cs (k : jsstring -> option mstate) s s' :
  matches ic (Star false p) s cs s' cs -> is_Some (k s') ->
  is_Some (star_lazy p k s).
Proof.
  intros Hm Hk. remember (Star false p) as r eqn:Hr.
  induction Hm; try discriminate; injection Hr as -> ->.
  - destruct Hk as [y Hy]. destruct s; cbn [star_lazy]; by rewrite Hy.
  - cbn [star_lazy]. destruct (k (x :: t)); [by eexists|].
    rewrite H. by apply IHHm.
Qed.

Lemma matches_star_captures ic g p s cs s' cs' :
  matches ic (Star g p) s cs s' cs' -> cs' = cs.
Proof.
  intros Hm. remember (Star g p) as r eqn:Hr.
  induction Hm; try discriminate; done.
Qed.

Lemma rmatch_complete ic r s cs s' cs' :
  matches ic r s cs s' cs' ->
  forall k : cont, is_Some (k s' cs') -> is_Some (rmatch ic r s cs k).
Proof.
  intros Hm.
  induction Hm as [c x t cs Hc|p x t cs Hp|s cs
                  |r1 r2 s cs s1 cs1 s2 cs2 Hm1 IH1 Hm2 IH2
                  |r1 r2 s cs s' cs' Hm IH|r1 r2 s cs s' cs' Hm IH
                  |g p s cs|g p x t cs s' Hp Hm IH
                  |i r s cs s' cs' Hm IH|i s cs Hcap|i t s s' cs Hcap Hs];
    intros k Hk; cbn [rmatch].
  - by rewrite Hc.
  - by rewrite Hp.
  - done.
  - apply IH1. by apply IH2.
  - destruct (IH k Hk) as [y ->]. by eexists.
  - destruct (rmatch ic r1 s cs k); [by eexists|]. by apply IH.
  - destruct g.
    + apply (star_greedy_complete ic p cs _ s s); [constructor|done].
    + apply (star_lazy_complete ic p cs _ s s); [constructor|done].
  - destruct g.
    + apply (star_greedy_complete ic p cs _ _ s'); [by constructor|done].
    + apply (star_lazy_complete ic p cs _ _ s'); [by constructor|done].
  - by apply IH.
  - by rewrite Hcap.
  - by rewrite Hcap, Hs.
Qed.

(** A match consumes a prefix of the input. *)
Lemma strip_prefix_suffix ic t s s' :
  strip_prefix ic t s = Some s' -> exists consumed, s = consumed ++ s'.
Proof.
  revert s. induction t as [|a t IH]; intros s; cbn [strip_prefix].
  - intros [= ->]. by exists [].
  - destruct s as [|b s]; [done|]. destruct (chr_match ic a b); [|done].
    intros Hs. destruct (IH _ Hs) as [consumed ->]. by exists (b :: consumed).
Qed.

Lemma matches_suffix ic r s cs s' cs' :
  matches ic r s cs s' cs' -> exists consumed, s = consumed ++ s'.
Proof.
  induction 1 as [c x t cs Hc|p x t cs Hp|s cs
                 |r1 r2 s cs s1 cs1 s2 cs2 Hm1 IH1 Hm2 IH2
                 |r1 r2 s cs s' cs' Hm IH|r1 r2 s cs s' cs' Hm IH
                 |g p s cs|g p x t cs s' Hp Hm IH
                 |i r s cs s' cs' Hm IH|i s cs Hcap|i t s s' cs Hcap Hs];
    try (by exists []); try (by exists [x]); try done.
  - destruct IH1 as [c1 ->], IH2 as [c2 ->]. exists (c1 ++ c2).
    by rewrite app_assoc.
  - destruct IH as [c1 ->]. by exists (x :: c1).
  - by eapply strip_prefix_suffix.
Qed.

(** No match is shorter than [min_length]. *)
Lemma matches_min_length ic r s cs s' cs' :
  matches ic r s cs s' cs' -> length s' + min_length r <= length s.
Proof.
  induction 1 as [c x t cs Hc|p x t cs Hp|s cs
                 |r1 r2 s cs s1 cs1 s2 cs2 Hm1 IH1 Hm2 IH2
                 |r1 r2 s cs s' cs' Hm IH|r1 r2 s cs s' cs' Hm IH
                 |g p s cs|g p x t cs s' Hp Hm IH
                 |i r s cs s' cs' Hm IH|i s cs Hcap|i t s s' cs Hcap Hs];
    cbn [min_length length] in *; try lia.
  destruct (strip_prefix_suffix _ _ _ _ Hs) as [consumed ->].
  rewrite length_app. lia.
Qed.

Lemma match_here_sound ic r s len cs :
  match_here ic r s = Some (len, cs) ->
  exists after,
    s = take len s ++ after /\ len = length s - length after /\
    matches ic r s [] after cs.
Proof.
  unfold match_here. intros Hm.
  destruct (rmatch ic r s [] _) as [[rest cs0]|] eqn:Hr; [|done].
  injection Hm as <- <-.
  destruct (rmatch_sound _ _ _ _ _ _ Hr) as (s' & cs' & Hmatch & [= -> ->]).
  exists rest. split; [|done].
  destruct (matches_suffix _ _ _ _ _ _ Hmatch) as [consumed ->].
  rewrite length_app.
  replace (length consumed + length rest - length rest)
    with (length consumed) by lia.
  by rewrite take_app_length.
Qed.

Lemma match_here_complete ic r s after cs :
  matches ic r s [] after cs -> is_Some (match_here ic r s).
Proof.
  intros Hm. unfold match_here.
  destruct (rmatch_complete _ _ _ _ _ _ Hm (fun s' cs' => Some (s', cs')))
    as [[rest cs0] ->]; by eexists.
Qed.

(** The matches of a pattern with a positive [min_length] are not empty:
    the loop over the matches of such a pattern always moves on. *)
Lemma match_here_min_length ic r s len cs :
  match_here ic r s = Some (len, cs) -> min_length r <= len.
Proof.
  intros Hm. destruct (match_here_sound _ _ _ _ _ Hm) as (after & _ & -> & Hmatch).
  apply matches_min_length in Hmatch. lia.
Qed.

Lemma loop_patterns_min_length :
  min_length sqlFragmentRegex = 18 /\ min_length includeRegex = 19 /\
  min_length commentRegex = 7.
Proof. vm_compute. done. Qed.

(** [exec] finds nothing exactly when the pattern matches nowhere. *)
Lemma regex_exec_None ic r s :
  regex_exec ic r s = None <-> ~ occurs ic r s.
Proof.
  induction s as [|c t IH]; cbn [regex_exec].
  - destruct (match_here ic r []) as [[len cs]|] eqn:Hm.
    + split; [done|]. intros Hno. exfalso. apply Hno.
      destruct (match_here_sound _ _ _ _ _ Hm) as (after & _ & _ & Hmatch).
      by exists [], [], after, cs.
    + split; [|done]. intros _ (before & rest & after & cs & Heq & Hmatch).
      symmetry in Heq. apply app_eq_nil in Heq as [-> ->].
      destruct (match_here_complete _ _ _ _ _ Hmatch) as [y Hy]. congruence.
  - destruct (match_here ic r (c :: t)) as [[len cs]|] eqn:Hm.
    + split; [done|]. intros Hno. exfalso. apply Hno.
      destruct (match_here_sound _ _ _ _ _ Hm) as (after & _ & _ & Hmatch).
      by exists [], (c :: t), after, cs.
    + destruct (regex_exec ic r t) as [m|] eqn:Ht.
      * split; [done|]. intros Hno. exfalso.
        assert (Hnot : ~ occurs ic r t).
        { intros (before & rest & after & cs & -> & Hmatch).
          apply Hno. by exists (c :: before), rest, after, cs. }
        by apply IH in Hnot.
      * split; [|done]. intros _ (before & rest & after & cs & Heq & Hmatch).
        destruct before as [|b before]; cbn [app] in Heq.
        -- subst rest.
           destruct (match_here_complete _ _ _ _ _ Hmatch) as [y Hy].
           congruence.
        -- injection Heq as -> ->. apply (proj1 IH eq_refl).
           by exists before, rest, after, cs.
Qed.

(** [test] answers whether the pattern matches somewhere. *)
Lemma regex_test_occurs ic r s :
  regex_test ic r s = false <-> ~ occurs ic r s.
Proof.
  rewrite <- regex_exec_None. unfold regex_test.
  rewrite bool_decide_eq_false. by rewrite eq_None_not_Some.
Qed.

(** ** Classes and the [i] flag *)

Lemma all_units_complete (c : ascii) : c ∈ all_units.
Proof.
  unfold all_units. rewrite <- (ascii_nat_embedding c).
  apply list_elem_of_fmap_2, elem_of_seq.
  pose proof (nat_ascii_bounded c). lia.
Qed.

(** The classes that the patterns with the [i] flag use have the same
    members with and without case folding, so [Cls] need not fold. *)
Lemma classes_ignore_case (ch : ascii) :
  class_fold is_space ch = is_space ch /\
  class_fold is_quote ch = is_quote ch /\
  class_fold (chr_eqb ">") ch = chr_eqb ">" ch.
Proof.
  assert (Hall : forallb (fun c =>
            bool_decide (class_fold is_space c = is_space c) &&
            bool_decide (class_fold is_quote c = is_quote c) &&
            bool_decide (class_fold (chr_eqb ">") c = chr_eqb ">" c))
            all_units = true) by (vm_compute; reflexivity).
  rewrite forallb_forall in Hall.
  specialize (Hall ch (proj1 (list_elem_of_In _ _) (all_units_complete ch))).
  apply andb_prop in Hall as [Hall H3]. apply andb_prop in Hall as [H1 H2].
  by apply bool_decide_eq_true in H1, H2, H3.
Qed.

(** ** Escaped identifiers *)

Lemma match_here_cls p c t :
  match_here false (Cls p) (c :: t) = if p c then Some (1, []) else None.
Proof.
  unfold match_here. cbn [rmatch]. destruct (p c); [|done].
  f_equal. f_equal. cbn [length]. lia.
Qed.

Lemma not_special_not_backslash c :
  is_regex_special c = false -> chr_eqb c "\" = false.
Proof.
  unfold is_regex_special. intros Hc.
  destruct (chr_eqb c "\") eqn:Hb; [|done].
  unfold chr_eqb in Hb. apply Ascii.eqb_eq in Hb. subst c.
  vm_compute in Hc. discriminate Hc.
Qed.

(** The pattern read from an escaped identifier is the identifier, code
    unit by code unit. *)
Lemma literalPattern_escapeRegex (str : jsstring) :
  literalPattern (escapeRegex str) = Lit str.
Proof.
  unfold escapeRegex, replace_all. generalize 0 at 2 as pos.
  induction str as [|c t IH]; intros pos; [done|].
  cbn [replace_loop]. rewrite match_here_cls.
  destruct (is_regex_special c) eqn:Hc.
  - cbn [m_text take]. rewrite take_0.
    change (getSubstitution [c] [] [] (js "\$&")) with ["\"%char; c].
    cbn [app literalPattern Lit].
    change (chr_eqb "\" "\") with true. cbv iota. by rewrite IH.
  - cbn [literalPattern Lit]. rewrite (not_special_not_backslash _ Hc).
    by rewrite IH.
Qed.
(** ** Comment stripping *)

Lemma lf_count_app s t : lf_count (s ++ t) = lf_count s + lf_count t.
Proof. unfold lf_count. by rewrite filter_app, length_app. Qed.

Lemma lf_count_cons c s : lf_count (c :: s) = lf_count [c] + lf_count s.
Proof. apply (lf_count_app [c] s). Qed.

Lemma lf_count_repeat n : lf_count (repeat_chr LF n) = n.
Proof.
  unfold repeat_chr. induction n as [|n IH]; [done|].
  change (replicate (S n) LF) with (LF :: replicate n LF).
  rewrite lf_count_cons, IH. reflexivity.
Qed.

Lemma lf_count_take_drop n s : lf_count (take n s) + lf_count (drop n s) = lf_count s.
Proof. by rewrite <- lf_count_app, take_drop. Qed.

Lemma match_here_lf c t :
  match_here false (Chr LF) (c :: t) =
  if chr_eqb LF c then Some (1, []) else None.
Proof.
  unfold match_here. cbn [rmatch chr_match]. destruct (chr_eqb LF c); [|done].
  f_equal. f_equal. cbn [length]. lia.
Qed.

(** The matches of [/\n/g] are the line feeds. *)
Lemma newlineCount_lf_count m : newlineCount m = lf_count m.
Proof.
  unfold newlineCount, exec_all. generalize 0 at 2 as pos.
  induction m as [|c t IH]; intros pos; [done|].
  cbn [exec_loop]. rewrite match_here_lf, lf_count_cons.
  unfold chr_eqb. destruct (Ascii.eqb_spec LF c) as [<-|Hne].
  - cbn [pred length]. by rewrite IH.
  - rewrite IH. unfold lf_count at 2.
    rewrite filter_cons_False by congruence. done.
Qed.

(** A replacer that keeps the line feeds of each match keeps the line
    feeds of the whole text. *)
Lemma replace_loop_lf_count ic r f :
  (forall m, lf_count (f m) = lf_count (m_text m)) ->
  forall s skip pos,
    lf_count (replace_loop ic r f skip pos s) = lf_count (drop skip s).
Proof.
  intros Hf. induction s as [|c t IH]; intros skip pos.
  - destruct skip; cbn [replace_loop]; [|done].
    destruct (match_here ic r []) as [[len cs]|]; [|done].
    rewrite app_nil_r, Hf. cbn [m_text]. by rewrite take_nil.
  - destruct skip as [|k]; cbn [replace_loop].
    + destruct (match_here ic r (c :: t)) as [[len cs]|].
      * rewrite lf_count_app, Hf. cbn [m_text].
        destruct len as [|k].
        -- rewrite (lf_count_cons c (replace_loop _ _ _ _ _ _)), IH.
           rewrite !drop_0. by rewrite <- lf_count_cons.
        -- rewrite IH, drop_0. cbn [take].
           rewrite (lf_count_cons c (take k t)), (lf_count_cons c t).
           rewrite <- (lf_count_take_drop k t). lia.
      * rewrite (lf_count_cons c (replace_loop _ _ _ _ _ _)), IH.
        rewrite !drop_0. by rewrite <- lf_count_cons.
    + by rewrite IH.
Qed.

(** C8. Comment stripping keeps line counts: for every input the output
    of [removeXmlComments] has exactly as many line feeds as the input. *)
Theorem removeXmlComments_preserves_newlines (content : jsstring) :
  lf_count (removeXmlComments content) = lf_count content.
Proof.
  unfold removeXmlComments. destruct content as [|c t]; [done|].
  unfold replace_all. rewrite replace_loop_lf_count.
  - by rewrite drop_0.
  - intros m. by rewrite lf_count_repeat, newlineCount_lf_count.
Qed.

(** ** Fragment extraction *)

Lemma set_all_app (l1 l2 : list (jsstring * jsstring))
    (m : gmap jsstring jsstring) :
  foldl (fun fragments d => <[d.1 := d.2]> fragments) m (l1 ++ l2) =
  foldl (fun fragments d => <[d.1 := d.2]> fragments)
        (foldl (fun fragments d => <[d.1 := d.2]> fragments) m l1) l2.
Proof. apply foldl_app. Qed.

(** Declarations of other ids leave the entry of [id] alone. *)
Lemma set_all_other (l : list (jsstring * jsstring))
    (m : gmap jsstring jsstring) (id : jsstring) :
  id ∉ l.*1 ->
  foldl (fun fragments d => <[d.1 := d.2]> fragments) m l !! id = m !! id.
Proof.
  revert m. induction l as [|[k v] l IH]; intros m Hid; [done|].
  cbn [foldl fst snd]. rewrite fmap_cons in Hid. cbn [fst] in Hid.
  apply not_elem_of_cons in Hid as [Hne Hid].
  rewrite IH by done. by rewrite lookup_insert_ne.
Qed.

(** Among the declarations that the fragment pattern finds, the last one
    of an id gives the entry of the id: whenever the matches of the
    pattern, in document order, have a pair [(id, body)] that no later
    pair of [id] follows, the extracted map sends [id] to [body]. *)
Lemma extractSqlFragments_last_wins (content id body : jsstring)
    (earlier later : list (jsstring * jsstring)) :
  fragmentDeclarations content = earlier ++ (id, body) :: later ->
  id ∉ later.*1 ->
  extractSqlFragments content !! id = Some body.
Proof.
  intros Hdecl Hlast. unfold extractSqlFragments. rewrite Hdecl.
  rewrite set_all_app. cbn [foldl fst snd].
  rewrite set_all_other by done. apply lookup_insert_eq.
Qed.

(** An id that the fragment pattern never finds is not in the map. *)
Lemma extractSqlFragments_undeclared (content id : jsstring) :
  id ∉ (fragmentDeclarations content).*1 ->
  extractSqlFragments content !! id = None.
Proof.
  intros Hid. unfold extractSqlFragments.
  rewrite set_all_other by done. apply lookup_empty.
Qed.


(** ** Inclusion markers *)

(** A text the pattern never matches gives the [exec] loop nothing. *)
Lemma exec_loop_no_match ic r s :
  regex_exec ic r s = None -> forall pos, exec_loop ic r 0 pos s = [].
Proof.
  induction s as [|c t IH]; cbn [regex_exec exec_loop]; intros Hnone pos.
  - by destruct (match_here ic r []) as [[len cs]|].
  - destruct (match_here ic r (c :: t)) as [[len cs]|]; [done|].
    apply IH. by destruct (regex_exec ic r t).
Qed.

Lemma regex_test_false ic r s :
  regex_test ic r s = false <-> regex_exec ic r s = None.
Proof.
  unfold regex_test. rewrite bool_decide_eq_false.
  rewrite <- eq_None_not_Some. done.
Qed.

Lemma exec_all_no_match ic r s :
  regex_test ic r s = false -> exec_all ic r s = [].
Proof.
  intros H. apply exec_loop_no_match. by apply regex_test_false.
Qed.

(** A text without inclusion markers is returned as it is by every call
    that has a frame to run in. *)
Lemma resolveIncludes_no_marker (depth : nat) (sql : jsstring)
    (fragments : gmap jsstring jsstring) (visited : gset jsstring) :
  ~ hasMarker sql ->
  resolveIncludes (S depth) sql fragments visited = Some sql.
Proof.
  intros Hno. apply regex_test_occurs in Hno. cbn [resolveIncludes].
  rewrite (exec_all_no_match _ _ _ Hno). cbn [expandMatches].
  by rewrite bool_decide_eq_true_2.
Qed.

(** ** The LRU bound *)

Section LRUCacheFacts.
Context {K V : Type} `{EqDecision K}.
Implicit Types (c : LRUCache.t K V) (es kvs : list (K * V)).

Lemma without_fresh k es : k ∉ es.*1 -> LRUCache.without k es = es.
Proof.
  intros Hk. unfold LRUCache.without.
  induction es as [|[k' v] es IH]; [done|].
  rewrite fmap_cons in Hk. apply not_elem_of_cons in Hk as [Hne Hk].
  cbn [fst] in Hne.
  rewrite filter_cons_True by (cbn; congruence). by rewrite IH.
Qed.

Lemma assoc_fresh k es : k ∉ es.*1 -> LRUCache.assoc k es = None.
Proof.
  induction es as [|[k' v] es IH]; [done|]. intros Hk.
  rewrite fmap_cons in Hk. apply not_elem_of_cons in Hk as [Hne Hk].
  cbn [LRUCache.assoc]. rewrite decide_False by (cbn in Hne; congruence).
  by apply IH.
Qed.

Lemma assoc_NoDup k v es :
  NoDup es.*1 -> (k, v) ∈ es -> LRUCache.assoc k es = Some v.
Proof.
  induction es as [|[k' v'] es IH]; intros Hnd Hin.
  - by apply elem_of_nil in Hin.
  - rewrite fmap_cons in Hnd. apply NoDup_cons in Hnd as [Hk' Hnd].
    cbn [LRUCache.assoc]. apply elem_of_cons in Hin as [Heq|Hin].
    + injection Heq as -> ->. by rewrite decide_True.
    + rewrite decide_False; [by apply IH|].
      intros ->. apply Hk'. cbn [fst].
      apply (list_elem_of_fmap_2 fst) in Hin. done.
Qed.

Lemma last_n_snoc_drop n es e :
  length es <= n ->
  (if n <? length (es ++ [e]) then drop 1 (es ++ [e]) else es ++ [e]) =
  last_n n (es ++ [e]).
Proof.
  intros Hle. unfold last_n. rewrite length_app. cbn [length].
  destruct (Nat.ltb_spec n (length es + 1)) as [Hlt|Hge].
  - by replace (length es + 1 - n) with 1 by lia.
  - by replace (length es + 1 - n) with 0 by lia.
Qed.

Lemma last_n_length n es : length (last_n n es) = Nat.min n (length es).
Proof. unfold last_n. rewrite length_drop. lia. Qed.

Lemma last_n_app_last_n n es kvs :
  last_n n (last_n n es ++ kvs) = last_n n (es ++ kvs).
Proof.
  unfold last_n. rewrite <- (drop_app_le es kvs) by lia.
  rewrite drop_drop. f_equal. rewrite length_drop, !length_app. lia.
Qed.

Lemma put_fresh n es k v :
  k ∉ es.*1 -> length es <= n ->
  LRUCache.put k v (LRUCache.Cache n es) =
  LRUCache.Cache n (last_n n (es ++ [(k, v)])).
Proof.
  intros Hk Hle. unfold LRUCache.put, LRUCache.evictLeastRecentlyUsed,
    LRUCache.size. cbn [LRUCache.capacity LRUCache.entries].
  rewrite without_fresh by done.
  rewrite <- (last_n_snoc_drop n es (k, v)) by done.
  by destruct (n <? length (es ++ [(k, v)])).
Qed.

Lemma last_n_subseteq n es : last_n n es ⊆ es.
Proof. apply subseteq_drop. Qed.

(** Putting fresh, pairwise distinct keys keeps the last [n] entries. *)
Lemma putAll_fresh n kvs : forall es,
  NoDup kvs.*1 -> (forall k, k ∈ kvs.*1 -> k ∉ es.*1) -> length es <= n ->
  LRUCache.putAll kvs (LRUCache.Cache n es) =
  LRUCache.Cache n (last_n n (es ++ kvs)).
Proof.
  induction kvs as [|[k v] kvs IH]; intros es Hnd Hfresh Hle.
  - cbn. rewrite app_nil_r. unfold last_n.
    by replace (length es - n) with 0 by lia.
  - rewrite fmap_cons in Hnd. apply NoDup_cons in Hnd as [Hk Hnd].
    cbn [fst] in Hk.
    unfold LRUCache.putAll. cbn [foldl fst snd].
    rewrite put_fresh; [|apply Hfresh; rewrite fmap_cons; left|done].
    fold (LRUCache.putAll kvs (LRUCache.Cache n (last_n n (es ++ [(k, v)])))).
    rewrite IH; [|done| |rewrite last_n_length; lia].
    + rewrite last_n_app_last_n. by rewrite <- app_assoc.
    + intros k' Hk' Hin.
      apply list_elem_of_fmap in Hin as [[k'' v''] [-> Hin]].
      apply last_n_subseteq, elem_of_app in Hin as [Hin|Hin].
      * apply (Hfresh k''); [rewrite fmap_cons; by right|].
        by apply (list_elem_of_fmap_2 fst) in Hin.
      * apply list_elem_of_singleton in Hin. injection Hin as -> ->. done.
Qed.

(** C9. The LRU bound.  In a cache of capacity [N], after [N + 1] puts
    of pairwise distinct keys with no reads in between, the size is [N],
    the key put first (the least recently used) is absent and every later
    key is still there with its value. *)
Theorem lru_bound_after_overflow (N : nat) (k0 : K) (v0 : V) rest :
  NoDup (k0 :: rest.*1) ->
  length rest = N ->
  let c := LRUCache.putAll ((k0, v0) :: rest) (LRUCache.empty N) in
  LRUCache.size c = N /\
  LRUCache.get k0 c = (None, c) /\
  forall k v, (k, v) ∈ rest -> (LRUCache.get k c).1 = Some v.
Proof.
  intros Hnd Hlen c.
  assert (Hc : c = LRUCache.Cache N rest).
  { subst c. unfold LRUCache.empty. rewrite putAll_fresh.
    - f_equal. unfold last_n. cbn [app length].
      by replace (S (length rest) - N) with 1 by lia.
    - done.
    - intros k _. cbn. apply not_elem_of_nil.
    - cbn. lia. }
  apply NoDup_cons in Hnd as [Hk0 Hnd].
  rewrite Hc. unfold LRUCache.size, LRUCache.get.
  cbn [LRUCache.entries LRUCache.capacity]. split; [done|]. split.
  - by rewrite assoc_fresh.
  - intros k v Hin. by rewrite (assoc_NoDup k v rest).
Qed.

End LRUCacheFacts.

(** ** The three outcomes of a marker *)

(** The referenced id is being expanded already: the marker gives way to
    the circular-reference annotation. *)
Lemma expandMatches_visited
    (recurse : jsstring -> gset jsstring -> option jsstring)
    (fragments : gmap jsstring jsstring) (visited : gset jsstring)
    (m : rmatch_result) (rest : list rmatch_result)
    (resolved refId : jsstring) :
  m_group 1 m = refId ->
  refId ∈ visited ->
  expandMatches recurse fragments visited (m :: rest) resolved =
  expandMatches recurse fragments visited rest
    (string_replace resolved (m_text m) (circularAnnotation refId)).
Proof.
  intros <- Hin. cbn [expandMatches]. by rewrite bool_decide_eq_true_2.
Qed.

(** The referenced id has a non-empty fragment and is not being expanded:
    the marker gives way to what the recursive call returns for the
    fragment, with the id added to the visited set. *)
Lemma expandMatches_found
    (recurse : jsstring -> gset jsstring -> option jsstring)
    (fragments : gmap jsstring jsstring) (visited : gset jsstring)
    (m : rmatch_result) (rest : list rmatch_result)
    (resolved refId content resolvedFragment : jsstring) :
  m_group 1 m = refId ->
  refId ∉ visited ->
  fragments !! refId = Some content ->
  content <> [] ->
  recurse content ({[refId]} ∪ visited) = Some resolvedFragment ->
  expandMatches recurse fragments visited (m :: rest) resolved =
  expandMatches recurse fragments visited rest
    (string_replace resolved (m_text m) resolvedFragment).
Proof.
  intros <- Hnot Hfrag Hne Hrec. cbn [expandMatches].
  rewrite bool_decide_eq_false_2 by done. rewrite Hfrag.
  destruct content as [|c content]; [done|]. by rewrite Hrec.
Qed.

(** The referenced id has no fragment, or an empty one: the marker gives
    way to the not-found annotation. *)
Lemma expandMatches_missing
    (recurse : jsstring -> gset jsstring -> option jsstring)
    (fragments : gmap jsstring jsstring) (visited : gset jsstring)
    (m : rmatch_result) (rest : list rmatch_result)
    (resolved refId : jsstring) :
  m_group 1 m = refId ->
  refId ∉ visited ->
  fragments !! refId = None \/ fragments !! refId = Some [] ->
  expandMatches recurse fragments visited (m :: rest) resolved =
  expandMatches recurse fragments visited rest
    (string_replace resolved (m_text m) (notFoundAnnotation refId)).
Proof.
  intros <- Hnot Hfrag. cbn [expandMatches].
  rewrite bool_decide_eq_false_2 by done. by destruct Hfrag as [-> | ->].
Qed.

(** A pass that leaves no marker ends the call. *)
Lemma resolveIncludes_done (depth : nat) (sql resolved : jsstring)
    (fragments : gmap jsstring jsstring) (visited : gset jsstring) :
  expandMatches (fun s v => resolveIncludes depth s fragments v)
    fragments visited (exec_all true includeRegex sql) sql = Some resolved ->
  regex_test true includeRegex resolved = false ->
  resolveIncludes (S depth) sql fragments visited = Some resolved.
Proof.
  intros Hpass Htest. cbn [resolveIncludes].
  by rewrite Hpass, Htest, andb_false_r.
Qed.

(** A loop that found nothing ran over a text without match. *)
Lemma exec_loop_nil ic r s :
  forall pos, exec_loop ic r 0 pos s = [] -> regex_exec ic r s = None.
Proof.
  induction s as [|c t IH]; cbn [regex_exec exec_loop]; intros pos Hnil.
  - by destruct (match_here ic r []) as [[len cs]|].
  - destruct (match_here ic r (c :: t)) as [[len cs]|]; [done|].
    by rewrite (IH _ Hnil).
Qed.

(** Whatever a call returns has no inclusion marker left. *)
Lemma resolveIncludes_marker_free (stack : nat) :
  forall (sql : jsstring) (fragments : gmap jsstring jsstring)
         (visited : gset jsstring) (r : jsstring),
    resolveIncludes stack sql fragments visited = Some r -> ~ hasMarker r.
Proof.
  induction stack as [|depth IH]; intros sql fragments visited r; [done|].
  cbn [resolveIncludes].
  destruct (expandMatches _ _ _ _ _) as [resolved|] eqn:Hpass; [|done].
  case_bool_decide as Hms; cbn [negb andb].
  - intros [= <-]. rewrite Hms in Hpass. injection Hpass as <-.
    apply regex_exec_None. by apply (exec_loop_nil _ _ _ 0).
  - destruct (regex_test true includeRegex resolved) eqn:Htest.
    + apply IH.
    + intros [= <-]. by apply regex_test_occurs.
Qed.

(** ** Stack depth *)

(** A deeper stack does not change a result. *)
Lemma expandMatches_mono
    (rec1 rec2 : jsstring -> gset jsstring -> option jsstring)
    (fragments : gmap jsstring jsstring) (visited : gset jsstring)
    (matches : list rmatch_result) :
  (forall s v x, rec1 s v = Some x -> rec2 s v = Some x) ->
  forall resolved r,
    expandMatches rec1 fragments visited matches resolved = Some r ->
    expandMatches rec2 fragments visited matches resolved = Some r.
Proof.
  intros Hrec. induction matches as [|m rest IH]; intros resolved r; [done|].
  cbn [expandMatches]. case_bool_decide; [apply IH|].
  destruct (fragments !! m_group 1 m) as [[|c fragmentContent]|];
    [apply IH| |apply IH].
  destruct (rec1 (c :: fragmentContent) _) as [x|] eqn:Hx; [|done].
  rewrite (Hrec _ _ _ Hx). apply IH.
Qed.

Lemma resolveIncludes_mono (n : nat) : forall (m : nat) (sql : jsstring)
    (fragments : gmap jsstring jsstring) (visited : gset jsstring)
    (r : jsstring),
  n <= m ->
  resolveIncludes n sql fragments visited = Some r ->
  resolveIncludes m sql fragments visited = Some r.
Proof.
  induction n as [|n IH]; intros m sql fragments visited r Hle; [done|].
  destruct m as [|m]; [lia|]. cbn [resolveIncludes].
  destruct (expandMatches (fun s v => resolveIncludes n s fragments v) _ _ _ _)
    as [resolved|] eqn:Hpass; [|done].
  rewrite (expandMatches_mono _ (fun s v => resolveIncludes m s fragments v)
             _ _ _ (fun s v x => IH m s fragments v x ltac:(lia)) _ _ Hpass).
  destruct (_ && _); [|done]. apply IH. lia.
Qed.

(** ** composeSql *)

(** [composeSql] in terms of the content that [readFile] delivers. *)
Lemma composeSql_unfold (stack : nat) (w : world)
    (xmlFilePath statementId : jsstring) :
  composeSql stack w xmlFilePath statementId =
  match extractStatementContent (readFile w xmlFilePath) statementId with
  | None | Some [] => (NotFound, w)
  | Some statementContent =>
      match
        resolveIncludes stack statementContent
          (extractSqlFragments (readFile w xmlFilePath)) ∅
      with
      | Some resolved => (Composed resolved, w)
      | None =>
          (Caught, console_error (js "[SqlComposer] Error composing SQL:") w)
      end
  end.
Proof. reflexivity. Qed.

Lemma readFile_content (w : world) (path content : jsstring) :
  files w path = Some content -> readFile w path = content.
Proof. unfold readFile. by intros ->. Qed.

(** The three ways [composeSql] ends, from what its steps give. *)
Lemma composeSql_composed (stack : nat) (w : world)
    (path id content body resolved : jsstring) :
  files w path = Some content ->
  extractStatementContent content id = Some body ->
  body <> [] ->
  resolveIncludes stack body (extractSqlFragments content) ∅ = Some resolved ->
  composeSql stack w path id = (Composed resolved, w).
Proof.
  intros Hfile Hbody Hne Hres.
  rewrite composeSql_unfold, (readFile_content _ _ _ Hfile), Hbody.
  destruct body as [|c body]; [done|]. by rewrite Hres.
Qed.

Lemma composeSql_caught (stack : nat) (w : world)
    (path id content body : jsstring) :
  files w path = Some content ->
  extractStatementContent content id = Some body ->
  body <> [] ->
  resolveIncludes stack body (extractSqlFragments content) ∅ = None ->
  composeSql stack w path id =
  (Caught, console_error (js "[SqlComposer] Error composing SQL:") w).
Proof.
  intros Hfile Hbody Hne Hres.
  rewrite composeSql_unfold, (readFile_content _ _ _ Hfile), Hbody.
  destruct body as [|c body]; [done|]. by rewrite Hres.
Qed.

Lemma composeSql_empty_body (stack : nat) (w : world)
    (path id content : jsstring) :
  files w path = Some content ->
  extractStatementContent content id = Some [] ->
  composeSql stack w path id = (NotFound, w).
Proof.
  intros Hfile Hbody.
  by rewrite composeSql_unfold, (readFile_content _ _ _ Hfile), Hbody.
Qed.

(** A composition that succeeds on some stack succeeds, with the same
    text, on every deeper one. *)
Lemma composeSql_mono (n m : nat) (w : world) (path id sql : jsstring) :
  n <= m ->
  composeSql n w path id = (Composed sql, w) ->
  composeSql m w path id = (Composed sql, w).
Proof.
  intros Hle. rewrite !composeSql_unfold.
  destruct (extractStatementContent _ _) as [[|c body]|]; [done| |done].
  destruct (resolveIncludes n _ _ _) as [r|] eqn:Hr; [|done].
  rewrite (resolveIncludes_mono n m _ _ _ _ Hle Hr). done.
Qed.

(** ** Attributes next to the id *)

(** C7 (as the code behaves).  The document declares the fragment [cols]
    twice, first with the text [id] and last with the text [id, name];
    the last declaration has a [databaseId] attribute before its id.  The
    fragment pattern wants the id to be the first attribute, so the scan
    does not see the last declaration: the extracted map sends [cols] to
    the text of the first declaration, and the statement that includes
    [cols] composes with that text. *)
Theorem extractSqlFragments_first_declaration_wins (depth : nat) :
  Xml.fragments attributeOrderDocument =
    [(js "cols", js "id"); (js "cols", js "id, name")] /\
  Xml.lastDeclared (js "cols") attributeOrderDocument =
    Some (js "id, name") /\
  fragmentDeclarations (Xml.write attributeOrderDocument) =
    [(js "cols", js "id")] /\
  extractSqlFragments (Xml.write attributeOrderDocument) !! js "cols" =
    Some (js "id") /\
  composeSql (S (S depth))
    (one_file (js "UserMapper.xml") (Xml.write attributeOrderDocument))
    (js "UserMapper.xml") (js "findAll") =
    (Composed (js "select id from users"),
     one_file (js "UserMapper.xml") (Xml.write attributeOrderDocument)).
Proof.
  split; [vm_compute; reflexivity|].
  split; [vm_compute; reflexivity|].
  assert (Hscan : fragmentDeclarations (Xml.write attributeOrderDocument) =
                  [] ++ (js "cols", js "id") :: [])
    by (vm_compute; reflexivity).
  split; [exact Hscan|].
  split.
  - unfold extractSqlFragments. rewrite Hscan. cbn [app foldl fst snd].
    apply lookup_insert_eq.
  - apply (composeSql_mono 2); [lia|].
    apply (composeSql_composed _ _ _ _ (Xml.write attributeOrderDocument)
             (js "select <include refid='cols'/> from users"));
      [vm_compute; reflexivity..|discriminate|vm_compute; reflexivity].
Qed.

(** The lookup of a statement finds nothing exactly when the statement
    pattern of the id matches nowhere in the document without its
    comments. *)
Lemma extractStatementContent_None (content statementId : jsstring) :
  extractStatementContent content statementId = None <->
  ~ declaresStatement content statementId.
Proof.
  unfold declaresStatement. rewrite <- regex_exec_None.
  unfold extractStatementContent.
  by destruct (regex_exec true (statementRegex statementId) _).
Qed.

(** The not-found return: when the statement pattern of an id matches
    nowhere in the document without its comments, [composeSql] ends in
    the not-found return and gives [null]; on every stack nothing is
    thrown or caught and the world is left as it was. *)
Lemma composeSql_unknown_statement (stack : nat) (w : world)
    (xmlFilePath statementId : jsstring) :
  ~ declaresStatement (readFile w xmlFilePath) statementId ->
  composeSql stack w xmlFilePath statementId = (NotFound, w) /\
  returned (composeSql stack w xmlFilePath statementId).1 = None.
Proof.
  intros Hnone. apply extractStatementContent_None in Hnone.
  rewrite composeSql_unfold, Hnone. done.
Qed.

(** C3 (as the code behaves).  The document has one statement, of id
    [findUser], with a [databaseId] attribute of value [mysql].  Neither
    [mysql] nor [FINDUSER] is the id of a statement of the document, yet
    on every stack [composeSql] returns the text of [findUser] for both
    instead of [null]: the statement pattern takes the letters [Id] at
    the end of [databaseId] for the id attribute, and its [i] flag makes
    the id match up to letter case. *)
Theorem composeSql_unknown_id_composed (depth : nat) :
  Xml.statementIds databaseIdDocument = [js "findUser"] /\
  composeSql (S depth)
    (one_file (js "UserMapper.xml") (Xml.write databaseIdDocument))
    (js "UserMapper.xml") (js "mysql") =
    (Composed (js "select * from users"),
     one_file (js "UserMapper.xml") (Xml.write databaseIdDocument)) /\
  composeSql (S depth)
    (one_file (js "UserMapper.xml") (Xml.write databaseIdDocument))
    (js "UserMapper.xml") (js "FINDUSER") =
    (Composed (js "select * from users"),
     one_file (js "UserMapper.xml") (Xml.write databaseIdDocument)).
Proof.
  split; [vm_compute; reflexivity|].
  split; apply (composeSql_mono 1); try lia;
    apply (composeSql_composed _ _ _ _ (Xml.write databaseIdDocument)
             (js "select * from users"));
    try (vm_compute; reflexivity); try discriminate;
    apply resolveIncludes_no_marker, regex_test_occurs; vm_compute; reflexivity.
Qed.

(** No statement pattern matches the empty document. *)
Lemma extractStatementContent_empty (statementId : jsstring) :
  extractStatementContent [] statementId = None.
Proof. reflexivity. Qed.

(** C6. A failed read: when the mapping document cannot be read,
    [composeSql] ends in the not-found return ([null]) for every
    statement id and every stack; nothing is thrown or caught, and the
    world (files and console) is left as it was. *)
Theorem composeSql_unreadable_file (stack : nat) (w : world)
    (xmlFilePath statementId : jsstring) :
  files w xmlFilePath = None ->
  composeSql stack w xmlFilePath statementId = (NotFound, w).
Proof.
  intros Hfail. rewrite composeSql_unfold.
  unfold readFile. rewrite Hfail.
  by rewrite extractStatementContent_empty.
Qed.

(** ** Nested inclusion *)

Lemma nestedDocument_statement :
  extractStatementContent nestedDocument (js "S") =
  Some (js "select <include refid='B'/> from t").
Proof. vm_compute. reflexivity. Qed.

Lemma nestedDocument_fragments :
  fragmentDeclarations nestedDocument =
  [(js "A", js "x, y"); (js "B", js "<include refid='A'/>, z")].
Proof. vm_compute. reflexivity. Qed.

(** C5. Nested inclusion is expanded in full: for every document that
    declares fragment [A] with content [x, y], fragment [B] whose content
    includes [A] followed by [, z], and statement [S] whose body is
    [select], an inclusion of [B], [from t], composing [S] yields
    [select x, y, z from t] on every stack with room for the three nested
    calls. *)
Theorem composeSql_nested_fragments (stack : nat) (w : world)
    (xmlFilePath content : jsstring) :
  files w xmlFilePath = Some content ->
  extractSqlFragments content !! js "A" = Some (js "x, y") ->
  extractSqlFragments content !! js "B" =
    Some (js "<include refid='A'/>, z") ->
  extractStatementContent content (js "S") =
    Some (js "select <include refid='B'/> from t") ->
  3 <= stack ->
  composeSql stack w xmlFilePath (js "S") =
  (Composed (js "select x, y, z from t"), w).
Proof.
  intros Hfile HA HB HS Hstack. apply (composeSql_mono 3); [done|].
  apply (composeSql_composed _ _ _ _ _ _ _ Hfile HS); [done|].
  set (fragments := extractSqlFragments content) in *.
  assert (Hx : resolveIncludes 1 (js "x, y") fragments
                 ({[js "A"]} ∪ ({[js "B"]} ∪ ∅)) = Some (js "x, y")).
  { apply resolveIncludes_no_marker, regex_test_occurs.
    vm_compute; reflexivity. }
  assert (Hb : resolveIncludes 2 (js "<include refid='A'/>, z") fragments
                 ({[js "B"]} ∪ ∅) = Some (js "x, y, z")).
  { apply resolveIncludes_done; [|vm_compute; reflexivity].
    change (exec_all true includeRegex (js "<include refid='A'/>, z"))
      with [MatchResult 0 (js "<include refid='A'/>") [(1, js "A")]].
    rewrite (expandMatches_found _ _ _ _ _ _ (js "A") (js "x, y") (js "x, y"));
      [vm_compute; reflexivity|reflexivity| |done|done|done].
    apply (bool_decide_unpack _). vm_compute; reflexivity. }
  apply resolveIncludes_done; [|vm_compute; reflexivity].
  change (exec_all true includeRegex (js "select <include refid='B'/> from t"))
    with [MatchResult 7 (js "<include refid='B'/>") [(1, js "B")]].
  rewrite (expandMatches_found _ _ _ _ _ _ (js "B")
             (js "<include refid='A'/>, z") (js "x, y, z"));
    [vm_compute; reflexivity|reflexivity| |done|done|done].
  apply not_elem_of_empty.
Qed.

Lemma nestedDocument_A :
  extractSqlFragments nestedDocument !! js "A" = Some (js "x, y").
Proof. vm_compute. reflexivity. Qed.

Lemma nestedDocument_B :
  extractSqlFragments nestedDocument !! js "B" =
  Some (js "<include refid='A'/>, z").
Proof. vm_compute. reflexivity. Qed.

Lemma composeSql_nested_fragments_witness :
  files (one_file (js "UserMapper.xml") nestedDocument) (js "UserMapper.xml")
    = Some nestedDocument /\
  extractSqlFragments nestedDocument !! js "A" = Some (js "x, y") /\
  extractSqlFragments nestedDocument !! js "B" =
    Some (js "<include refid='A'/>, z") /\
  extractStatementContent nestedDocument (js "S") =
    Some (js "select <include refid='B'/> from t") /\
  3 <= 3 /\
  composeSql 3 (one_file (js "UserMapper.xml") nestedDocument)
    (js "UserMapper.xml") (js "S") =
  (Composed (js "select x, y, z from t"),
   one_file (js "UserMapper.xml") nestedDocument).
Proof.
  split; [vm_compute; reflexivity|].
  split; [vm_compute; reflexivity|].
  split; [vm_compute; reflexivity|].
  split; [vm_compute; reflexivity|].
  split; [lia|].
  apply (composeSql_nested_fragments 3
           (one_file (js "UserMapper.xml") nestedDocument)
           (js "UserMapper.xml") nestedDocument);
    [vm_compute; reflexivity..| lia].
Defined.

(** ** Statements without inclusion markers *)

(** C10 (as amended). [resolveIncludes] is the identity on marker-free
    text: for every fragment map, visited set and text without inclusion
    marker, a call with a frame to run in returns the text unchanged; so
    composing a statement whose comment-stripped, trimmed body is not
    empty and has no inclusion marker returns that body as it is. *)
Theorem resolveIncludes_identity_without_markers (depth : nat)
    (sql : jsstring) (fragments : gmap jsstring jsstring)
    (visited : gset jsstring) :
  ~ hasMarker sql ->
  resolveIncludes (S depth) sql fragments visited = Some sql /\
  (forall (w : world) (path id content : jsstring),
     files w path = Some content ->
     extractStatementContent content id = Some sql ->
     sql <> [] ->
     composeSql (S depth) w path id = (Composed sql, w)).
Proof.
  intros Hno. split; [by apply resolveIncludes_no_marker|].
  intros w path id content Hfile Hbody Hne.
  apply (composeSql_composed _ _ _ _ _ _ _ Hfile Hbody Hne).
  by apply resolveIncludes_no_marker.
Qed.

Lemma resolveIncludes_identity_without_markers_witness :
  ~ hasMarker (js "select id, name from users") /\
  resolveIncludes 1 (js "select id, name from users") ∅ ∅ =
    Some (js "select id, name from users") /\
  (forall (w : world) (path id content : jsstring),
     files w path = Some content ->
     extractStatementContent content id =
       Some (js "select id, name from users") ->
     js "select id, name from users" <> [] ->
     composeSql 1 w path id =
       (Composed (js "select id, name from users"), w)).
Proof.
  split; [apply regex_test_occurs; vm_compute; reflexivity|].
  apply (resolveIncludes_identity_without_markers 0
           (js "select id, name from users") ∅ ∅).
  apply regex_test_occurs; vm_compute; reflexivity.
Defined.

(** The statement [selectUser] of the plain document composes to its
    body. *)
Example composeSql_plain_statement :
  composeSql 1 (one_file (js "UserMapper.xml") plainDocument)
    (js "UserMapper.xml") (js "selectUser") =
  (Composed (js "select id, name from users"),
   one_file (js "UserMapper.xml") plainDocument).
Proof.
  apply (composeSql_composed _ _ _ _ plainDocument
           (js "select id, name from users"));
    [vm_compute; reflexivity..|done|].
  apply resolveIncludes_no_marker, regex_test_occurs. vm_compute; reflexivity.
Qed.

(** C10 (as stated) fails: the statement [empty] of the plain document
    has the empty string as its comment-stripped, trimmed body, a text
    without inclusion marker, and composing it gives [null], not that
    body. *)
Lemma composeSql_empty_statement_counterexample :
  ~ (forall (depth : nat) (sql : jsstring) (w : world)
       (path id content : jsstring),
       ~ hasMarker sql ->
       files w path = Some content ->
       extractStatementContent content id = Some sql ->
       composeSql (S depth) w path id = (Composed sql, w)).
Proof.
  intros Hclaim.
  specialize (Hclaim 0 [] (one_file (js "UserMapper.xml") plainDocument)
                (js "UserMapper.xml") (js "empty") plainDocument).
  rewrite (composeSql_empty_body 1 _ _ _ plainDocument) in Hclaim;
    [|vm_compute; reflexivity..].
  discriminate Hclaim;
    [apply regex_test_occurs; vm_compute; reflexivity
    |vm_compute; reflexivity..].
Qed.

(** ** Witnesses *)

Lemma composeSql_unknown_statement_witness :
  ~ declaresStatement
      (readFile (one_file (js "UserMapper.xml") plainDocument)
         (js "UserMapper.xml")) (js "nonExistentStatement") /\
  composeSql 1 (one_file (js "UserMapper.xml") plainDocument)
    (js "UserMapper.xml") (js "nonExistentStatement") =
    (NotFound, one_file (js "UserMapper.xml") plainDocument) /\
  returned (composeSql 1 (one_file (js "UserMapper.xml") plainDocument)
    (js "UserMapper.xml") (js "nonExistentStatement")).1 = None.
Proof.
  split; [apply extractStatementContent_None; vm_compute; reflexivity|].
  apply (composeSql_unknown_statement 1
           (one_file (js "UserMapper.xml") plainDocument)
           (js "UserMapper.xml") (js "nonExistentStatement")).
  apply extractStatementContent_None; vm_compute; reflexivity.
Defined.

Lemma composeSql_unreadable_file_witness :
  files (one_file (js "UserMapper.xml") plainDocument) (js "Missing.xml")
    = None /\
  composeSql 1 (one_file (js "UserMapper.xml") plainDocument)
    (js "Missing.xml") (js "selectUser") =
    (NotFound, one_file (js "UserMapper.xml") plainDocument).
Proof.
  split; [vm_compute; reflexivity|].
  apply (composeSql_unreadable_file 1
           (one_file (js "UserMapper.xml") plainDocument)
           (js "Missing.xml") (js "selectUser")).
  vm_compute; reflexivity.
Defined.

Lemma extractSqlFragments_last_wins_witness :
  fragmentDeclarations duplicateDocument =
    [(js "cols", js "id")] ++
    (js "cols", js "id, name") :: [(js "other", js "name")] /\
  (js "cols" ∉ [(js "other", js "name")].*1) /\
  extractSqlFragments duplicateDocument !! js "cols" = Some (js "id, name").
Proof.
  split; [vm_compute; reflexivity|].
  split; [apply (bool_decide_unpack _); vm_compute; reflexivity|].
  apply (extractSqlFragments_last_wins duplicateDocument (js "cols")
           (js "id, name") [(js "cols", js "id")] [(js "other", js "name")]);
    [vm_compute; reflexivity
    |apply (bool_decide_unpack _); vm_compute; reflexivity].
Defined.

Lemma lru_bound_after_overflow_witness :
  NoDup ("k1"%string :: [("k2"%string, 2); ("k3"%string, 3)].*1) /\
  length [("k2"%string, 2); ("k3"%string, 3)] = 2 /\
  (let c := LRUCache.putAll
              (("k1"%string, 1) :: [("k2"%string, 2); ("k3"%string, 3)])
              (LRUCache.empty 2) in
   LRUCache.size c = 2 /\
   LRUCache.get "k1"%string c = (None, c) /\
   forall k v, (k, v) ∈ [("k2"%string, 2); ("k3"%string, 3)] ->
               (LRUCache.get k c).1 = Some v).
Proof.
  split; [apply (bool_decide_unpack _); vm_compute; reflexivity|].
  split; [reflexivity|].
  apply (lru_bound_after_overflow 2 "k1"%string 1
           [("k2"%string, 2); ("k3"%string, 3)]);
    [apply (bool_decide_unpack _); vm_compute; reflexivity | reflexivity].
Defined.

(** ** Replacement texts with dollar patterns *)

Lemma resolveIncludes_S (depth : nat) (sql : jsstring)
    (fragments : gmap jsstring jsstring) (visited : gset jsstring) :
  resolveIncludes (S depth) sql fragments visited =
  match
    expandMatches (fun s v => resolveIncludes depth s fragments v)
      fragments visited (exec_all true includeRegex sql) sql
  with
  | None => None
  | Some resolved =>
      if negb (bool_decide (exec_all true includeRegex sql = []))
         && regex_test true includeRegex resolved
      then resolveIncludes depth resolved fragments visited
      else Some resolved
  end.
Proof. reflexivity. Qed.

(** A pass whose nested calls need one frame and that leaves markers in
    the text hands the rewritten text to the next call. *)
Lemma resolveIncludes_repass (depth : nat) (sql resolved : jsstring)
    (fragments : gmap jsstring jsstring) (visited : gset jsstring) :
  exec_all true includeRegex sql <> [] ->
  expandMatches (fun s v => resolveIncludes 1 s fragments v)
    fragments visited (exec_all true includeRegex sql) sql = Some resolved ->
  regex_test true includeRegex resolved = true ->
  resolveIncludes (S (S depth)) sql fragments visited =
  resolveIncludes (S depth) resolved fragments visited.
Proof.
  intros Hms Hpass Htest. rewrite (resolveIncludes_S (S depth)).
  rewrite (expandMatches_mono _
             (fun s v => resolveIncludes (S depth) s fragments v)
             _ _ _ (fun s v x => resolveIncludes_mono 1 (S depth) s fragments
                                   v x ltac:(lia)) _ _ Hpass).
  by rewrite Htest, bool_decide_eq_false_2.
Qed.

(** A text that a pass rewrites to itself, markers included, is never
    resolved, however deep the stack. *)
Lemma resolveIncludes_fixed_text (sql : jsstring)
    (fragments : gmap jsstring jsstring) (visited : gset jsstring) :
  exec_all true includeRegex sql <> [] ->
  expandMatches (fun s v => resolveIncludes 1 s fragments v)
    fragments visited (exec_all true includeRegex sql) sql = Some sql ->
  regex_test true includeRegex sql = true ->
  resolveIncludes 1 sql fragments visited = None ->
  forall stack, resolveIncludes stack sql fragments visited = None.
Proof.
  intros Hms Hpass Htest Hone stack.
  induction stack as [|[|depth] IH]; [done|done|].
  by rewrite (resolveIncludes_repass depth sql sql).
Qed.

Lemma cyclicDocument_statement :
  extractStatementContent cyclicDocument (js "s") = Some cyclicStatement.
Proof. vm_compute. reflexivity. Qed.

Lemma cyclicDocument_fragments :
  fragmentDeclarations cyclicDocument =
  [(js "C", js "<include refid='C'/>"); (js "D", js "$'")].
Proof. vm_compute. reflexivity. Qed.

Lemma cyclicRewritten_unresolved (stack : nat) :
  resolveIncludes stack cyclicRewritten (extractSqlFragments cyclicDocument) ∅
  = None.
Proof.
  apply resolveIncludes_fixed_text.
  - vm_compute. discriminate.
  - vm_compute. reflexivity.
  - vm_compute. reflexivity.
  - vm_compute. reflexivity.
Qed.

Lemma cyclicStatement_unresolved (stack : nat) :
  resolveIncludes stack cyclicStatement (extractSqlFragments cyclicDocument) ∅
  = None.
Proof.
  destruct stack as [|[|depth]]; [done|vm_compute; reflexivity|].
  rewrite (resolveIncludes_repass depth cyclicStatement cyclicRewritten).
  - apply cyclicRewritten_unresolved.
  - vm_compute. discriminate.
  - vm_compute. reflexivity.
  - vm_compute. reflexivity.
Qed.

(** C1 (as the code behaves).  The cyclic document declares a fragment
    [C] that includes itself and a fragment [D] whose text is a dollar
    sign and a single quote; its statement [s] includes [C] once and [D]
    twice.  Each pass over the statement leaves the two markers of [D] in
    place, so the recursion never ends: on every stack the call runs out
    of frames, [composeSql] ends in its catch branch and returns [null];
    no text with a circular-reference annotation is returned. *)
Theorem composeSql_cycle_never_composed (stack : nat) :
  composeSql stack (one_file (js "UserMapper.xml") cyclicDocument)
    (js "UserMapper.xml") (js "s") =
  (Caught,
   console_error (js "[SqlComposer] Error composing SQL:")
     (one_file (js "UserMapper.xml") cyclicDocument)).
Proof.
  apply (composeSql_caught _ _ _ _ cyclicDocument cyclicStatement).
  - vm_compute. reflexivity.
  - apply cyclicDocument_statement.
  - discriminate.
  - apply cyclicStatement_unresolved.
Qed.

(** C4 (as the code behaves).  The fragment [P] is in the map, is not
    visited, and its recursively expanded content is its own text, a
    dollar sign between single quotes.  What [resolveIncludes] puts in
    place of the marker is not that text: the replacement is read as a
    template, the dollar sign and the quote after it stand for the text
    after the marker, and the result is [select ' from t from t] instead
    of the statement with the fragment text in it. *)
Theorem resolveIncludes_dollar_fragment (depth : nat) :
  resolveIncludes (S depth) (js "'$'") dollarFragments {[ js "P" ]} =
    Some (js "'$'") /\
  resolveIncludes (S (S depth)) (js "select <include refid='P'/> from t")
    dollarFragments ∅ =
    Some (js "select ' from t from t").
Proof.
  split.
  - apply (resolveIncludes_mono 1); [lia|]. vm_compute. reflexivity.
  - apply (resolveIncludes_mono 2); [lia|]. vm_compute. reflexivity.
Qed.

(** C2 (as the code behaves).  The statement of the dollar document
    includes the declared fragment [P] and the undeclared id [M].  The
    composed text has the not-found annotation for [M], but the text of
    [P] is not in it and the rest of the statement is there twice. *)
Theorem composeSql_missing_fragment_dollar (depth : nat) :
  composeSql (S (S depth)) (one_file (js "UserMapper.xml") dollarDocument)
    (js "UserMapper.xml") (js "s") =
  (Composed
     (js "select ' from t /* Fragment not found: M */ from t /* Fragment not found: M */"),
   one_file (js "UserMapper.xml") dollarDocument).
Proof.
  apply (composeSql_mono 2); [lia|].
  apply (composeSql_composed _ _ _ _ dollarDocument
           (js "select <include refid='P'/> from t <include refid='M'/>"));
    [vm_compute; reflexivity..|discriminate|vm_compute; reflexivity].
Qed.

(** ** The scenarios of the unit tests *)

(** Two fragments that include each other: the composed text carries the
    circular-reference annotation. *)
Example composeSql_circular_reference :
  composeSql 3 (one_file (js "TestMapper.xml") circularDocument)
    (js "TestMapper.xml") (js "selectWithCircular") =
  (Composed (js "select * from users
        /* Circular reference detected: fragment_a */"),
   one_file (js "TestMapper.xml") circularDocument).
Proof. vm_compute. reflexivity. Qed.

(** A fragment that includes itself. *)
Example resolveIncludes_self_reference :
  resolveIncludes 2 (js "select <include refid='C'/> from t")
    {[ js "C" := js "<include refid='C'/>" ]} ∅ =
  Some (js "select /* Circular reference detected: C */ from t").
Proof. vm_compute. reflexivity. Qed.

(** A marker of an undeclared fragment. *)
Example resolveIncludes_missing_fragment :
  resolveIncludes 1 (js "select <include refid='non_existent_fragment'/> from users")
    ∅ ∅ =
  Some (js "select /* Fragment not found: non_existent_fragment */ from users").
Proof. vm_compute. reflexivity. Qed.

(** A declared fragment with an empty body is reported as not found. *)
Example resolveIncludes_empty_fragment :
  resolveIncludes 1 (js "select 1 <include refid='E'/>")
    {[ js "E" := [] ]} ∅ =
  Some (js "select 1 /* Fragment not found: E */").
Proof. vm_compute. reflexivity. Qed.

(** A fragment with a dollar sign between single quotes that a statement
    includes twice: a pass leaves two markers in the text again, and the
    call has not returned within six frames. *)
Example resolveIncludes_dollar_twice :
  expandMatches (fun s v => resolveIncludes 1 s dollarFragments v)
    dollarFragments ∅
    (exec_all true includeRegex
       (js "a <include refid='P'/> b <include refid='P'/> c"))
    (js "a <include refid='P'/> b <include refid='P'/> c") =
  Some (js "a ' b ' c b <include refid='P'/> c c b <include refid='P'/> c") /\
  resolveIncludes 6 (js "a <include refid='P'/> b <include refid='P'/> c")
    dollarFragments ∅ = None.
Proof. split; vm_compute; reflexivity. Qed.

(** ** More on the matcher *)

Lemma regex_exec_Some_occurs ic r s m :
  regex_exec ic r s = Some m -> occurs ic r s.
Proof.
  revert m. induction s as [|c t IH]; intros m; cbn [regex_exec].
  - destruct (match_here ic r []) as [[len cs]|] eqn:Hh; [|done]. intros _.
    destruct (match_here_sound _ _ _ _ _ Hh) as (after & _ & _ & Hmatch).
    by exists [], [], after, cs.
  - destruct (match_here ic r (c :: t)) as [[len cs]|] eqn:Hh.
    + intros _.
      destruct (match_here_sound _ _ _ _ _ Hh) as (after & _ & _ & Hmatch).
      by exists [], (c :: t), after, cs.
    + destruct (regex_exec ic r t) as [m'|] eqn:Ht; [|done]. intros _.
      destruct (IH m' eq_refl) as (before & rest & after & cs & -> & Hmatch).
      by exists (c :: before), rest, after, cs.
Qed.

Lemma regex_test_true_occurs ic r s :
  regex_test ic r s = true -> occurs ic r s.
Proof.
  unfold regex_test. rewrite bool_decide_eq_true. intros [m Hm].
  by eapply regex_exec_Some_occurs.
Qed.

(** Every match starts with the head character of the pattern. *)
Lemma matches_head_chr ic r s cs s' cs' c :
  head_chr r = Some c -> matches ic r s cs s' cs' ->
  exists x t, s = x :: t /\ chr_match ic c x = true.
Proof.
  intros Hh Hm. revert c Hh.
  induction Hm; intros c0 Hh; cbn [head_chr] in Hh; try discriminate; eauto.
  injection Hh as <-. by eexists _, _.
Qed.

Lemma chr_match_lt ic x : chr_match ic "<" x = true -> x = "<"%char.
Proof.
  pose proof (all_units_complete x) as Hin. apply list_elem_of_In in Hin.
  assert (Hall : forallb (fun y =>
            implb (chr_match true "<" y || chr_match false "<" y)
                  (chr_eqb y "<")) all_units = true)
    by (vm_compute; reflexivity).
  rewrite forallb_forall in Hall. specialize (Hall x Hin).
  intros Hm. destruct ic; rewrite Hm in Hall; cbn in Hall;
    rewrite ?orb_true_r in Hall; cbn in Hall;
    unfold chr_eqb in Hall; by apply Ascii.eqb_eq in Hall.
Qed.

(** A pattern that starts with [<] matches nowhere in a text without
    that character. *)
Lemma no_lt_no_occurrence ic r s :
  head_chr r = Some "<"%char -> "<"%char ∉ s -> ~ occurs ic r s.
Proof.
  intros Hh Hno (before & rest & after & cs & -> & Hm).
  destruct (matches_head_chr _ _ _ _ _ _ _ Hh Hm) as (x & t & -> & Hx).
  apply chr_match_lt in Hx as ->. apply Hno. set_solver.
Qed.

(** Replacing all matches of a pattern that matches nowhere changes
    nothing. *)
Lemma replace_loop_no_match ic r f s :
  regex_exec ic r s = None -> forall pos, replace_loop ic r f 0 pos s = s.
Proof.
  induction s as [|c t IH]; cbn [regex_exec replace_loop]; intros Hnone pos.
  - by destruct (match_here ic r []) as [[len cs]|].
  - destruct (match_here ic r (c :: t)) as [[len cs]|]; [done|].
    rewrite IH; [done|]. by destruct (regex_exec ic r t).
Qed.

Lemma replace_all_no_match ic r f s :
  ~ occurs ic r s -> replace_all ic r f s = s.
Proof.
  intros Hno. apply replace_loop_no_match. by apply regex_exec_None.
Qed.

(** A replacer that never lengthens a match never lengthens the text. *)
Lemma replace_loop_length ic r f :
  (forall m, length (f m) <= length (m_text m)) ->
  forall s skip pos,
    length (replace_loop ic r f skip pos s) <= length (drop skip s).
Proof.
  intros Hf. induction s as [|c t IH]; intros skip pos.
  - destruct skip; cbn [replace_loop]; [|done].
    destruct (match_here ic r []) as [[len cs]|]; [|done].
    rewrite app_nil_r. etrans; [apply Hf|]. cbn [m_text]. by rewrite take_nil.
  - destruct skip as [|k]; cbn [replace_loop].
    + destruct (match_here ic r (c :: t)) as [[len cs]|].
      * rewrite length_app. specialize (Hf (MatchResult pos (take len (c :: t)) cs)).
        cbn [m_text] in Hf. rewrite drop_0. destruct len as [|k].
        -- cbn [take length] in *. specialize (IH 0 (S pos)).
           rewrite drop_0 in IH. lia.
        -- cbn [take length] in *. specialize (IH k (S pos)).
           rewrite length_drop in IH. rewrite length_take in Hf. lia.
      * cbn [length]. specialize (IH 0 (S pos)). rewrite !drop_0 in *.
        cbn [length]. lia.
    + apply IH.
Qed.

Lemma replace_all_length ic r f s :
  (forall m, length (f m) <= length (m_text m)) ->
  length (replace_all ic r f s) <= length s.
Proof.
  intros Hf. unfold replace_all.
  etrans; [by apply replace_loop_length|]. by rewrite drop_0.
Qed.

(** ** trim *)

Lemma trim_start_length s : length (trim_start s) <= length s.
Proof.
  induction s as [|c t IH]; cbn [trim_start]; [done|].
  destruct (is_space c); cbn [length]; lia.
Qed.

Lemma trim_length s : length (trim s) <= length s.
Proof.
  unfold trim. rewrite length_rev.
  etrans; [apply trim_start_length|]. rewrite length_rev.
  apply trim_start_length.
Qed.

Lemma trim_start_head s :
  match trim_start s with
  | [] => True
  | c :: _ => is_space c = false
  end.
Proof.
  induction s as [|c t IH]; cbn [trim_start]; [done|].
  by destruct (is_space c) eqn:Hc.
Qed.

Lemma trim_start_fixed s :
  match s with [] => True | c :: _ => is_space c = false end ->
  trim_start s = s.
Proof. destruct s as [|c t]; cbn [trim_start]; [done|]. by intros ->. Qed.

Lemma trim_start_suffix s : exists u, s = u ++ trim_start s.
Proof.
  induction s as [|c t IH]; cbn [trim_start]; [by exists []|].
  destruct (is_space c); [|by exists []].
  destruct IH as [u Hu]. exists (c :: u). cbn. by rewrite <- Hu.
Qed.

(** What [trim] returns starts and ends with no white space. *)
Lemma trim_trimmed s :
  trim_start (trim s) = trim s /\ trim_start (rev (trim s)) = rev (trim s).
Proof.
  unfold trim. rewrite rev_involutive. split.
  - apply trim_start_fixed.
    pose proof (trim_start_head s) as Hhead.
    destruct (trim_start_suffix (rev (trim_start s))) as [u Hu].
    apply (f_equal (@rev ascii)) in Hu.
    rewrite rev_involutive, rev_app_distr in Hu.
    destruct (rev (trim_start (rev (trim_start s)))) as [|c t] eqn:Hr; [done|].
    rewrite Hu in Hhead. done.
  - apply trim_start_fixed, trim_start_head.
Qed.

(** ** Comments and tags *)

Lemma lf_count_le_length s : lf_count s <= length s.
Proof. unfold lf_count. apply length_filter. Qed.

(** X1. [removeXmlComments] leaves a document without comment as it is:
    when the comment pattern matches nowhere in the content, the content
    is returned unchanged. *)
Theorem removeXmlComments_without_comment (content : jsstring) :
  ~ occurs false commentRegex content ->
  removeXmlComments content = content.
Proof.
  intros Hno. unfold removeXmlComments. destruct content as [|c t]; [done|].
  by apply replace_all_no_match.
Qed.

Lemma removeXmlComments_without_comment_witness :
  ~ occurs false commentRegex (js "<select id='s'>a <!- b -> c</select>") /\
  removeXmlComments (js "<select id='s'>a <!- b -> c</select>") =
  js "<select id='s'>a <!- b -> c</select>".
Proof.
  split; [apply regex_exec_None; vm_compute; reflexivity|].
  apply (removeXmlComments_without_comment
           (js "<select id='s'>a <!- b -> c</select>")).
  apply regex_exec_None; vm_compute; reflexivity.
Defined.

(** X2. [removeXmlComments] never makes a document longer: each comment
    gives way to its own line feeds only. *)
Theorem removeXmlComments_not_longer (content : jsstring) :
  length (removeXmlComments content) <= length content.
Proof.
  unfold removeXmlComments. destruct content as [|c t]; [done|].
  apply replace_all_length. intros m. unfold repeat_chr.
  rewrite length_replicate, newlineCount_lf_count. apply lf_count_le_length.
Qed.

(** X3. [cleanupXmlTags] on a text without [<]: there is no tag to take
    out, and the text is returned trimmed. *)
Theorem cleanupXmlTags_without_tags (sql : jsstring) :
  "<"%char ∉ sql -> cleanupXmlTags sql = trim sql.
Proof.
  intros Hno. unfold cleanupXmlTags.
  rewrite (replace_all_no_match false selfClosingTagRegex)
    by (by apply no_lt_no_occurrence).
  rewrite (replace_all_no_match true dynamicTagRegex)
    by (by apply no_lt_no_occurrence).
  done.
Qed.

Lemma cleanupXmlTags_without_tags_witness :
  ("<"%char ∉ js "  select id from users where id > 1 ") /\
  cleanupXmlTags (js "  select id from users where id > 1 ") =
  trim (js "  select id from users where id > 1 ").
Proof.
  split; [apply (bool_decide_unpack _); vm_compute; reflexivity|].
  apply (cleanupXmlTags_without_tags (js "  select id from users where id > 1 ")).
  apply (bool_decide_unpack _); vm_compute; reflexivity.
Defined.

(** X4. [cleanupXmlTags] only takes text away: its result is never longer
    than its input, and it starts and ends with no white space. *)
Theorem cleanupXmlTags_shrinks_and_trims (sql : jsstring) :
  length (cleanupXmlTags sql) <= length sql /\
  trim_start (cleanupXmlTags sql) = cleanupXmlTags sql /\
  trim_start (rev (cleanupXmlTags sql)) = rev (cleanupXmlTags sql).
Proof.
  unfold cleanupXmlTags. split; [|apply trim_trimmed].
  etrans; [apply trim_length|].
  etrans; [apply replace_all_length; intros m; cbn; lia|].
  apply replace_all_length. intros m. cbn. lia.
Qed.

(** ** Paths *)

Lemma match_here_chr c0 c t :
  match_here false (Chr c0) (c :: t) =
  if chr_eqb c0 c then Some (1, []) else None.
Proof.
  unfold match_here. cbn [rmatch chr_match]. destruct (chr_eqb c0 c); [|done].
  f_equal. f_equal. cbn [length]. lia.
Qed.

Lemma chr_eqb_sym a b : chr_eqb a b = chr_eqb b a.
Proof. unfold chr_eqb. apply Ascii.eqb_sym. Qed.

Lemma normalizePath_map_pos (filePath : jsstring) : forall pos,
  replace_loop false (Chr "\")
    (fun m => getSubstitution (m_text m) [] [] (js "/")) 0 pos filePath =
  map (fun c => if chr_eqb c "\" then "/"%char else c) filePath.
Proof.
  induction filePath as [|c t IH]; intros pos; [done|].
  cbn [replace_loop map]. rewrite match_here_chr, (chr_eqb_sym "\" c).
  destruct (chr_eqb c "\").
  - cbn [m_text]. change (getSubstitution _ [] [] (js "/")) with ["/"%char].
    cbn [app]. by rewrite IH.
  - by rewrite IH.
Qed.

(** X5. [normalizePath] turns every backslash into a slash and leaves
    every other code unit in its place (so the length is kept). *)
Theorem normalizePath_replaces_backslashes (filePath : jsstring) :
  normalizePath filePath =
  map (fun c => if chr_eqb c "\" then "/"%char else c) filePath.
Proof. apply normalizePath_map_pos. Qed.

(** X6. [normalizePath] leaves no backslash, and normalizing a normalized
    path changes nothing. *)
Theorem normalizePath_idempotent (filePath : jsstring) :
  ("\"%char ∉ normalizePath filePath) /\
  normalizePath (normalizePath filePath) = normalizePath filePath.
Proof.
  unfold normalizePath, replace_all. rewrite !normalizePath_map_pos.
  split.
  - intros Hin. apply list_elem_of_fmap in Hin as (c & Hc & _).
    destruct (chr_eqb c "\") eqn:Hb; [done|].
    subst c. unfold chr_eqb in Hb. by rewrite Ascii.eqb_refl in Hb.
  - rewrite map_map. apply map_ext. intros c.
    destruct (chr_eqb c "\") eqn:Hb; [done|]. by rewrite Hb.
Qed.

(** ** Escaped identifiers as patterns *)

Lemma matches_Lit ic t : forall s cs s' cs',
  matches ic (Lit t) s cs s' cs' <-> strip_prefix ic t s = Some s' /\ cs' = cs.
Proof.
  induction t as [|a t IH]; intros s cs s' cs'; cbn [Lit strip_prefix].
  - split.
    + intros Hm. by inversion Hm; subst.
    + intros [[= ->] ->]. constructor.
  - split.
    + intros Hm. inversion Hm as [| | |r1 r2 s0 cs0 s1 cs1 s2 cs2 H1 H2| | | | | | |]; subst.
      inversion H1; subst. apply IH in H2 as [Hs ->].
      by match goal with H : chr_match _ _ _ = true |- _ => rewrite H end.
    + destruct s as [|b s]; [by intros [? _]|].
      destruct (chr_match ic a b) eqn:Hab; [|by intros [? _]].
      intros [Hs ->]. econstructor; [by constructor|]. by apply IH.
Qed.

(** The characters that [escapeRegex] escapes are the syntax characters
    of the pattern grammar, all of them and no other. *)
Lemma syntax_characters_escaped (c : ascii) :
  is_regex_special c = is_syntax_character c.
Proof.
  assert (Hall : forallb (fun c =>
            bool_decide (is_regex_special c = is_syntax_character c))
            all_units = true) by (vm_compute; reflexivity).
  rewrite forallb_forall in Hall.
  specialize (Hall c (proj1 (list_elem_of_In _ _) (all_units_complete c))).
  by apply bool_decide_eq_true in Hall.
Qed.

(** A source that reads as a literal is the pattern of that literal. *)
Lemma readLiteral_literalPattern (source : jsstring) : forall t,
  readLiteral source = Some t -> literalPattern source = Lit t.
Proof.
  induction source as [source IH] using (induction_ltof1 _ (@length ascii)).
  unfold ltof in IH. intros t.
  destruct source as [|c rest]; [by intros [= <-]|].
  cbn [readLiteral literalPattern].
  destruct (chr_eqb c "\").
  - destruct rest as [|d rest]; [done|].
    destruct (is_syntax_character d); [|done].
    destruct (readLiteral rest) as [u|] eqn:Hu; [|done].
    cbn [option_map]. intros [= <-]. cbn [Lit].
    rewrite (IH rest) with (t := u); [done| |done].
    cbn [length]. lia.
  - destruct (is_syntax_character c); [done|].
    destruct (readLiteral rest) as [u|] eqn:Hu; [|done].
    cbn [option_map]. intros [= <-]. cbn [Lit].
    rewrite (IH rest) with (t := u); [done| |done].
    cbn [length]. lia.
Qed.

(** The escaped identifier is a source of pattern characters and identity
    escapes, and it stands for the identifier. *)
Lemma readLiteral_escapeRegex (str : jsstring) :
  readLiteral (escapeRegex str) = Some str.
Proof.
  unfold escapeRegex, replace_all. generalize 0 at 2 as pos.
  induction str as [|c t IH]; intros pos; [done|].
  cbn [replace_loop]. rewrite match_here_cls.
  destruct (is_regex_special c) eqn:Hc.
  - cbn [m_text take]. rewrite take_0.
    change (getSubstitution [c] [] [] (js "\$&")) with ["\"%char; c].
    cbn [app readLiteral].
    change (chr_eqb "\" "\") with true. cbv iota.
    rewrite <- syntax_characters_escaped, Hc. by rewrite IH.
  - cbn [readLiteral]. rewrite (not_special_not_backslash _ Hc).
    rewrite <- syntax_characters_escaped, Hc. by rewrite IH.
Qed.

(** Without escaping, a syntax character in an identifier is read as
    syntax: the source is not a literal. *)
Example readLiteral_unescaped :
  readLiteral (js "user.find") = None /\
  readLiteral (escapeRegex (js "user.find")) = Some (js "user.find").
Proof. split; vm_compute; reflexivity. Qed.

(** X7. [escapeRegex] makes an identifier a literal pattern: it puts a
    backslash before every syntax character of the pattern grammar, so
    the escaped identifier is made of pattern characters and identity
    escapes only and stands for the identifier itself; the pattern read
    from it matches exactly the texts that start with the identifier (up
    to letter case under the [i] flag) and captures nothing. *)
Theorem escapeRegex_matches_literally (ic : bool) (str s s' : jsstring)
    (cs cs' : captures) :
  readLiteral (escapeRegex str) = Some str /\
  (matches ic (literalPattern (escapeRegex str)) s cs s' cs' <->
   strip_prefix ic str s = Some s' /\ cs' = cs).
Proof.
  pose proof (readLiteral_escapeRegex str) as Hread.
  split; [done|].
  rewrite (readLiteral_literalPattern _ _ Hread). apply matches_Lit.
Qed.

(** ** First lines of a file *)

Lemma split_lf_nonempty s : split_lf s <> [].
Proof.
  destruct s as [|c t]; cbn [split_lf]; [done|].
  destruct (chr_eqb c LF); [done|]. by destruct (split_lf t).
Qed.

Lemma join_lf_cons l rest :
  rest <> [] -> join_lf (l :: rest) = l ++ LF :: join_lf rest.
Proof. by destruct rest. Qed.

(** Splitting at the line feeds and joining with line feeds gives the
    text back. *)
Lemma join_split_lf s : join_lf (split_lf s) = s.
Proof.
  induction s as [|c t IH]; [done|]. cbn [split_lf].
  destruct (chr_eqb c LF) eqn:Hc.
  - unfold chr_eqb in Hc. apply Ascii.eqb_eq in Hc as ->.
    rewrite join_lf_cons by apply split_lf_nonempty. by rewrite IH.
  - pose proof (split_lf_nonempty t) as Hne.
    destruct (split_lf t) as [|l ls]; [done|].
    destruct ls as [|l' ls]; cbn [join_lf app] in *; by rewrite IH.
Qed.

Lemma join_lf_take_prefix (lines : list jsstring) : forall k,
  join_lf (take k lines) `prefix_of` join_lf lines.
Proof.
  induction lines as [|l rest IH]; intros k.
  - by rewrite take_nil.
  - destruct k as [|k]; [apply prefix_nil|]. cbn [take].
    destruct rest as [|l' rest].
    + by rewrite take_nil.
    + rewrite (join_lf_cons l (l' :: rest)) by done.
      destruct (take k (l' :: rest)) as [|x xs] eqn:Hk.
      * cbn [join_lf]. by apply prefix_app_r.
      * rewrite join_lf_cons by done. rewrite <- Hk.
        apply prefix_app, prefix_cons, IH.
Qed.

Lemma slice_to_take {A : Type} (end_ : Z) (a : list A) :
  exists k, slice_to end_ a = take k a.
Proof. unfold slice_to. destruct (end_ <? 0)%Z; by eexists. Qed.

(** X8. What [readFirstLines] returns is always a beginning of the file
    content, for every line count (negative ones too); it is the empty
    string when the file cannot be read. *)
Theorem readFirstLines_prefix (w : world) (filePath : jsstring)
    (lineCount : Z) :
  readFirstLines w filePath lineCount `prefix_of` readFile w filePath.
Proof.
  unfold readFirstLines, readFile.
  destruct (files w filePath) as [content|]; [|done].
  destruct (slice_to_take lineCount (split_lf content)) as [k ->].
  rewrite <- (join_split_lf content) at 2. apply join_lf_take_prefix.
Qed.

Lemma length_split_lf s : length (split_lf s) = S (lf_count s).
Proof.
  induction s as [|c t IH]; [done|]. cbn [split_lf].
  rewrite lf_count_cons. unfold lf_count at 1.
  destruct (chr_eqb c LF) eqn:Hc; unfold chr_eqb in Hc.
  - apply Ascii.eqb_eq in Hc as ->. rewrite filter_cons_True by done.
    rewrite filter_nil. cbn [length]. by rewrite IH.
  - apply Ascii.eqb_neq in Hc. rewrite filter_cons_False by done.
    rewrite filter_nil.
    pose proof (split_lf_nonempty t). destruct (split_lf t); [done|].
    cbn [length] in *. lia.
Qed.

(** X9. [readFirstLines] with a line count above the number of line feeds
    of the file returns the whole content. *)
Theorem readFirstLines_whole_file (w : world) (filePath content : jsstring)
    (lineCount : Z) :
  files w filePath = Some content ->
  (Z.of_nat (lf_count content) < lineCount)%Z ->
  readFirstLines w filePath lineCount = content.
Proof.
  intros Hfile Hlines. unfold readFirstLines, slice_to. rewrite Hfile.
  destruct (Z.ltb_spec lineCount 0); [lia|].
  rewrite take_ge by (rewrite length_split_lf; lia).
  apply join_split_lf.
Qed.

Lemma readFirstLines_whole_file_witness :
  files (one_file (js "UserMapper.java") (js "package a;
import b;
interface UserMapper {}")) (js "UserMapper.java") =
    Some (js "package a;
import b;
interface UserMapper {}") /\
  (Z.of_nat (lf_count (js "package a;
import b;
interface UserMapper {}")) < 100)%Z /\
  readFirstLines (one_file (js "UserMapper.java") (js "package a;
import b;
interface UserMapper {}")) (js "UserMapper.java") 100 =
  js "package a;
import b;
interface UserMapper {}".
Proof.
  split; [vm_compute; reflexivity|]. split; [vm_compute; reflexivity|].
  apply (readFirstLines_whole_file
           (one_file (js "UserMapper.java") (js "package a;
import b;
interface UserMapper {}")) (js "UserMapper.java")); vm_compute; reflexivity.
Defined.

Lemma lf_count_join_take (lines : list jsstring) : forall k,
  Forall (fun l => lf_count l = 0) lines ->
  lf_count (join_lf (take k lines)) = Nat.min k (length lines) - 1.
Proof.
  induction lines as [|l rest IH]; intros k Hall.
  - rewrite take_nil. cbn. lia.
  - apply Forall_cons in Hall as [Hl Hall].
    destruct k as [|k]; [done|]. cbn [take length].
    destruct (take k rest) as [|x xs] eqn:Hk.
    + cbn [join_lf]. rewrite Hl.
      destruct k; [lia|]. destruct rest; [cbn; lia|done].
    + rewrite join_lf_cons by done. rewrite <- Hk.
      rewrite lf_count_app, lf_count_cons, Hl, IH by done.
      assert (Hlen : length (take k rest) = S (length xs)) by by rewrite Hk.
      rewrite length_take in Hlen. change (lf_count [LF]) with 1. lia.
Qed.

Lemma split_lf_lines s : Forall (fun l => lf_count l = 0) (split_lf s).
Proof.
  induction s as [|c t IH]; [by repeat constructor|]. cbn [split_lf].
  destruct (chr_eqb c LF) eqn:Hc; [by constructor|].
  unfold chr_eqb in Hc. apply Ascii.eqb_neq in Hc.
  pose proof (split_lf_nonempty t) as Hne.
  destruct (split_lf t) as [|l ls]; [done|].
  apply Forall_cons in IH as [Hl Hls]. constructor; [|done].
  rewrite lf_count_cons, Hl. unfold lf_count.
  by rewrite filter_cons_False.
Qed.

(** X10. [readFirstLines] with a positive line count returns at most that
    many lines: the result has fewer line feeds than the line count, and
    exactly [lineCount - 1] of them when the file has more lines. *)
Theorem readFirstLines_line_bound (w : world) (filePath : jsstring)
    (lineCount : Z) :
  (0 < lineCount)%Z ->
  (Z.of_nat (lf_count (readFirstLines w filePath lineCount)) < lineCount)%Z /\
  (lineCount <= Z.of_nat (lf_count (readFile w filePath)) ->
   Z.of_nat (lf_count (readFirstLines w filePath lineCount)) = lineCount - 1)%Z.
Proof.
  intros Hpos. unfold readFirstLines, readFile, slice_to.
  destruct (files w filePath) as [content|]; [|cbn; lia].
  destruct (Z.ltb_spec lineCount 0); [lia|].
  rewrite lf_count_join_take by apply split_lf_lines.
  rewrite length_split_lf. lia.
Qed.

Lemma readFirstLines_line_bound_witness :
  (0 < 2)%Z /\
  (Z.of_nat (lf_count (readFirstLines (one_file (js "A.java") (js "a
b
c")) (js "A.java") 2)) < 2)%Z /\
  (2 <= Z.of_nat (lf_count (readFile (one_file (js "A.java") (js "a
b
c")) (js "A.java"))) ->
   Z.of_nat (lf_count (readFirstLines (one_file (js "A.java") (js "a
b
c")) (js "A.java") 2)) = 2 - 1)%Z.
Proof.
  split; [lia|].
  apply (readFirstLines_line_bound (one_file (js "A.java") (js "a
b
c")) (js "A.java") 2). lia.
Defined.

(** ** What a match of a pattern looks like *)

Lemma matches_Seq_inv ic r1 r2 s cs s2 cs2 :
  matches ic (Seq r1 r2) s cs s2 cs2 ->
  exists s1 cs1, matches ic r1 s cs s1 cs1 /\ matches ic r2 s1 cs1 s2 cs2.
Proof. intros Hm. inversion Hm; subst. eauto. Qed.

Lemma matches_Chr_inv ic c s cs s' cs' :
  matches ic (Chr c) s cs s' cs' ->
  exists x, s = x :: s' /\ chr_match ic c x = true /\ cs' = cs.
Proof. intros Hm. inversion Hm; subst. eauto. Qed.

Lemma matches_Cls_inv ic p s cs s' cs' :
  matches ic (Cls p) s cs s' cs' ->
  exists x, s = x :: s' /\ p x = true /\ cs' = cs.
Proof. intros Hm. inversion Hm; subst. eauto. Qed.

Lemma matches_Star_inv ic g p s cs s' cs' :
  matches ic (Star g p) s cs s' cs' ->
  cs' = cs /\ exists u, s = u ++ s' /\ forallb p u = true.
Proof.
  intros Hm. remember (Star g p) as r eqn:Hr.
  induction Hm; try discriminate; injection Hr as -> ->.
  - split; [done|]. by exists [].
  - destruct (IHHm eq_refl) as [_ (u & -> & Hu)]. split; [done|].
    exists (x :: u). split; [done|]. cbn [forallb]. by rewrite H, Hu.
Qed.

Lemma matches_Plus_inv ic p s cs s' cs' :
  matches ic (Plus p) s cs s' cs' ->
  cs' = cs /\ exists x u, s = x :: u ++ s' /\ forallb p (x :: u) = true.
Proof.
  unfold Plus. intros Hm.
  apply matches_Seq_inv in Hm as (s1 & cs1 & H1 & H2).
  apply matches_Cls_inv in H1 as (x & -> & Hx & ->).
  apply matches_Star_inv in H2 as [-> (u & -> & Hu)].
  split; [done|]. exists x, u. split; [done|]. cbn [forallb]. by rewrite Hx, Hu.
Qed.

Lemma matches_Grp_inv ic i r s cs s' cs' :
  matches ic (Grp i r) s cs s' cs' ->
  exists cs1, matches ic r s cs s' cs1 /\
              cs' = (i, take (length s - length s') s) :: cs1.
Proof. intros Hm. inversion Hm; subst. eauto. Qed.

Lemma matches_Alt_inv ic r1 r2 s cs s' cs' :
  matches ic (Alt r1 r2) s cs s' cs' ->
  matches ic r1 s cs s' cs' \/ matches ic r2 s cs s' cs'.
Proof. intros Hm. inversion Hm; subst; eauto. Qed.

(** The text a group of the form [p+] captures. *)
Lemma matches_Grp_Plus ic i p s cs s' cs' :
  matches ic (Grp i (Plus p)) s cs s' cs' ->
  exists t, s = t ++ s' /\ t <> [] /\ forallb p t = true /\
            cs' = (i, t) :: cs.
Proof.
  intros Hm. apply matches_Grp_inv in Hm as (cs1 & Hm & ->).
  apply matches_Plus_inv in Hm as [-> (x & u & -> & Hp)].
  exists (x :: u). split; [done|]. split; [done|]. split; [done|].
  f_equal. f_equal. rewrite (app_comm_cons u s' x), length_app.
  replace (length (x :: u) + length s' - length s') with (length (x :: u))
    by lia.
  by rewrite take_app_length.
Qed.

(** The text a group of the form [p*] captures. *)
Lemma matches_Grp_Star ic i g p s cs s' cs' :
  matches ic (Grp i (Star g p)) s cs s' cs' ->
  exists t, s = t ++ s' /\ cs' = (i, t) :: cs.
Proof.
  intros Hm. apply matches_Grp_inv in Hm as (cs1 & Hm & ->).
  apply matches_Star_inv in Hm as [-> (u & -> & Hp)].
  exists u. split; [done|]. f_equal. f_equal. rewrite length_app.
  replace (length u + length s' - length s') with (length u) by lia.
  by rewrite take_app_length.
Qed.

(** Every match of the loop comes from a match at some place of the
    text. *)
Lemma exec_loop_elem ic r m : forall s skip pos,
  m ∈ exec_loop ic r skip pos s ->
  exists rest after,
    matches ic r rest [] after (m_caps m) /\ rest = m_text m ++ after.
Proof.
  induction s as [|c t IH]; intros skip pos Hin.
  - destruct skip; cbn [exec_loop] in Hin; [|by apply elem_of_nil in Hin].
    destruct (match_here ic r []) as [[len cs]|] eqn:Hh;
      [|by apply elem_of_nil in Hin].
    apply list_elem_of_singleton in Hin as ->.
    destruct (match_here_sound _ _ _ _ _ Hh) as (after & Heq & _ & Hm).
    by exists [], after.
  - destruct skip as [|k]; cbn [exec_loop] in Hin; [|by eapply IH].
    destruct (match_here ic r (c :: t)) as [[len cs]|] eqn:Hh; [|by eapply IH].
    apply elem_of_cons in Hin as [->|Hin]; [|by eapply IH].
    destruct (match_here_sound _ _ _ _ _ Hh) as (after & Heq & _ & Hm).
    by exists (c :: t), after.
Qed.

(** Peels a match of a sequence apart, piece by piece. *)
Ltac peel_match :=
  repeat match goal with
  | H : matches _ (Cat _) _ _ _ _ |- _ => cbn [Cat] in H
  | H : matches _ (Seq _ _) _ _ _ _ |- _ =>
      apply matches_Seq_inv in H as (? & ? & ? & H)
  | H : matches _ (Lit _) _ _ _ _ |- _ => apply matches_Lit in H as [? ->]
  | H : matches _ (Chr _) _ _ _ _ |- _ =>
      apply matches_Chr_inv in H as (? & -> & ? & ->)
  | H : matches _ (Cls _) _ _ _ _ |- _ =>
      apply matches_Cls_inv in H as (? & -> & ? & ->)
  | H : matches _ (Plus _) _ _ _ _ |- _ =>
      apply matches_Plus_inv in H as [-> (? & ? & -> & ?)]
  | H : matches _ (Star _ _) _ _ _ _ |- _ =>
      apply matches_Star_inv in H as [-> (? & -> & ?)]
  | H : matches _ (Grp _ (Plus _)) _ _ _ _ |- _ =>
      apply matches_Grp_Plus in H as (? & -> & ? & ? & ->)
  | H : matches _ (Grp _ (Star _ _)) _ _ _ _ |- _ =>
      apply matches_Grp_Star in H as (? & -> & ->)
  end.

(** ** The fragment map *)

Lemma sqlFragmentRegex_groups s after cs :
  matches true sqlFragmentRegex s [] after cs ->
  exists id body,
    cs = [(2, body); (1, id)] /\ id <> [] /\ forallb not_quote id = true.
Proof.
  unfold sqlFragmentRegex. intros Hm. peel_match. eauto.
Qed.

Lemma fragmentDeclarations_wellformed (content id body : jsstring) :
  (id, body) ∈ fragmentDeclarations content ->
  id <> [] /\ forallb not_quote id = true /\
  trim_start body = body /\ trim_start (rev body) = rev body.
Proof.
  unfold fragmentDeclarations, exec_all. intros Hin.
  apply list_elem_of_fmap in Hin as (m & [= -> ->] & Hin).
  apply exec_loop_elem in Hin as (rest & after & Hm & _).
  apply sqlFragmentRegex_groups in Hm as (id & body & Hcs & Hid & Hq).
  unfold m_group. rewrite Hcs. cbn [capture Nat.eqb default].
  split; [done|]. split; [done|]. apply trim_trimmed.
Qed.

Lemma set_all_lookup (l : list (jsstring * jsstring)) :
  forall (m : gmap jsstring jsstring) (id body : jsstring),
  foldl (fun fragments d => <[d.1 := d.2]> fragments) m l !! id = Some body ->
  (id, body) ∈ l \/ m !! id = Some body.
Proof.
  induction l as [|[k v] l IH]; intros m id body; cbn [foldl fst snd];
    [by right|].
  intros Hl. apply IH in Hl as [Hin|Hl]; [left; by right|].
  destruct (decide (k = id)) as [->|Hne].
  - rewrite lookup_insert_eq in Hl. injection Hl as ->. left. by left.
  - rewrite lookup_insert_ne in Hl by done. by right.
Qed.



(** X12. The entries of the fragment map are well formed: every id in it
    is non-empty and has no quote, and every content starts and ends with
    no white space. *)
Theorem extractSqlFragments_entries (content id body : jsstring) :
  extractSqlFragments content !! id = Some body ->
  id <> [] /\ forallb not_quote id = true /\
  trim_start body = body /\ trim_start (rev body) = rev body.
Proof.
  unfold extractSqlFragments. intros Hl.
  apply set_all_lookup in Hl as [Hin|Hl]; [|by rewrite lookup_empty in Hl].
  by eapply fragmentDeclarations_wellformed.
Qed.

Lemma extractSqlFragments_entries_witness :
  extractSqlFragments nestedDocument !! js "B" =
    Some (js "<include refid='A'/>, z") /\
  js "B" <> [] /\ forallb not_quote (js "B") = true /\
  trim_start (js "<include refid='A'/>, z") = js "<include refid='A'/>, z" /\
  trim_start (rev (js "<include refid='A'/>, z")) =
    rev (js "<include refid='A'/>, z").
Proof.
  split; [vm_compute; reflexivity|].
  apply (extractSqlFragments_entries nestedDocument (js "B")
           (js "<include refid='A'/>, z")).
  vm_compute; reflexivity.
Defined.

(** ** Composed text *)

(** X13. Whatever [resolveIncludes] returns has no inclusion marker left:
    a call that returns has expanded or annotated every marker, those of
    nested fragments and newly exposed ones included. *)
Theorem resolveIncludes_leaves_no_marker (stack : nat) (sql : jsstring)
    (fragments : gmap jsstring jsstring) (visited : gset jsstring)
    (resolved : jsstring) :
  resolveIncludes stack sql fragments visited = Some resolved ->
  ~ hasMarker resolved.
Proof. apply resolveIncludes_marker_free. Qed.

Lemma resolveIncludes_leaves_no_marker_witness :
  resolveIncludes 3 (js "select <include refid='B'/> from t")
    (extractSqlFragments nestedDocument) ∅ =
    Some (js "select x, y, z from t") /\
  ~ hasMarker (js "select x, y, z from t").
Proof.
  split; [vm_compute; reflexivity|].
  apply (resolveIncludes_leaves_no_marker 3
           (js "select <include refid='B'/> from t")
           (extractSqlFragments nestedDocument) ∅).
  vm_compute; reflexivity.
Defined.

Lemma composeSql_Composed (stack : nat) (w w' : world)
    (path id sql : jsstring) :
  composeSql stack w path id = (Composed sql, w') ->
  w' = w /\
  exists body,
    extractStatementContent (readFile w path) id = Some body /\ body <> [] /\
    resolveIncludes stack body (extractSqlFragments (readFile w path)) ∅ =
      Some sql.
Proof.
  rewrite composeSql_unfold.
  destruct (extractStatementContent _ _) as [[|c body]|] eqn:Hb; [done| |done].
  destruct (resolveIncludes _ _ _ _) as [r|] eqn:Hr; [|done].
  intros [= -> ->]. split; [done|]. by exists (c :: body).
Qed.

Lemma extractStatementContent_declares (content id body : jsstring) :
  extractStatementContent content id = Some body ->
  declaresStatement content id.
Proof.
  unfold declaresStatement, extractStatementContent. intros Hb.
  destruct (regex_exec true _ _) as [m|] eqn:Hm; [|done].
  by eapply regex_exec_Some_occurs.
Qed.

Lemma composeSql_text_parts (stack : nat) (w w' : world)
    (path id sql : jsstring) :
  composeSql stack w path id = (Composed sql, w') ->
  declaresStatement (readFile w path) id /\ ~ hasMarker sql /\ w' = w.
Proof.
  intros Hc. apply composeSql_Composed in Hc as [-> (body & Hb & _ & Hr)].
  split; [|split; [by eapply resolveIncludes_marker_free|done]].
  by eapply extractStatementContent_declares.
Qed.

(** ** The statement that a lookup finds *)

Lemma regex_exec_Some_split ic r s m :
  regex_exec ic r s = Some m ->
  exists before rest after,
    s = before ++ rest /\ matches ic r rest [] after (m_caps m).
Proof.
  revert m. induction s as [|c t IH]; intros m; cbn [regex_exec].
  - destruct (match_here ic r []) as [[len cs]|] eqn:Hh; [|done].
    intros [= <-].
    destruct (match_here_sound _ _ _ _ _ Hh) as (after & _ & _ & Hmatch).
    by exists [], [], after.
  - destruct (match_here ic r (c :: t)) as [[len cs]|] eqn:Hh.
    + intros [= <-].
      destruct (match_here_sound _ _ _ _ _ Hh) as (after & _ & _ & Hmatch).
      by exists [], (c :: t), after.
    + destruct (regex_exec ic r t) as [m'|] eqn:Ht; [|done].
      intros [= <-]. cbn [m_caps].
      destruct (IH m' eq_refl) as (before & rest & after & -> & Hm).
      by exists (c :: before), rest, after.
Qed.

Lemma strip_prefix_split ic t : forall s s',
  strip_prefix ic t s = Some s' ->
  exists t', s = t' ++ s' /\ strip_prefix ic t t' = Some [].
Proof.
  induction t as [|a t IH]; intros s s'; cbn [strip_prefix].
  - intros [= ->]. by exists [].
  - destruct s as [|b s]; [done|]. destruct (chr_match ic a b) eqn:Hab; [|done].
    intros Hs. destruct (IH _ _ Hs) as (t' & -> & Ht').
    exists (b :: t'). split; [done|]. cbn [strip_prefix]. by rewrite Hab.
Qed.

(** The pattern characters [<], [>], [/] and [=] match themselves only,
    with and without the [i] flag. *)
Lemma chr_match_punct ic c x :
  chr_eqb c "<" || chr_eqb c ">" || chr_eqb c "/" || chr_eqb c "=" = true ->
  chr_match ic c x = true -> x = c.
Proof.
  intros Hc Hm.
  pose proof (all_units_complete x) as Hin. apply list_elem_of_In in Hin.
  assert (Hall : forallb (fun c => forallb (fun y =>
            implb (chr_match true c y || chr_match false c y)
                  (chr_eqb y c)) all_units) ["<"; ">"; "/"; "="]%char = true)
    by (vm_compute; reflexivity).
  rewrite forallb_forall in Hall.
  assert (Hc' : In c ["<"; ">"; "/"; "="]%char).
  { unfold chr_eqb in Hc. cbn [In].
    destruct (Ascii.eqb_spec c "<"); [by left|].
    destruct (Ascii.eqb_spec c ">"); [by right; left|].
    destruct (Ascii.eqb_spec c "/"); [by right; right; left|].
    destruct (Ascii.eqb_spec c "="); [by right; right; right; left|done]. }
  specialize (Hall c Hc').
  rewrite forallb_forall in Hall. specialize (Hall x Hin).
  destruct ic; rewrite Hm in Hall; cbn in Hall;
    rewrite ?orb_true_r in Hall; cbn in Hall;
    unfold chr_eqb in Hall; by apply Ascii.eqb_eq in Hall.
Qed.

Lemma strip_prefix_close ic s s' :
  strip_prefix ic (js "</") s = Some s' -> s = js "</" ++ s'.
Proof.
  cbn [js list_ascii_of_string strip_prefix].
  destruct s as [|a [|b s]]; try done.
  - by destruct (chr_match ic "<" a).
  - destruct (chr_match ic "<" a) eqn:Ha; [|done].
    destruct (chr_match ic "/" b) eqn:Hb; [|done]. intros [= ->].
    apply chr_match_punct in Ha as ->; [|reflexivity].
    apply chr_match_punct in Hb as ->; [|reflexivity]. done.
Qed.

Lemma matches_statement_tag ic i s cs s' cs' :
  matches ic
    (Grp i (Alt (Lit (js "select")) (Alt (Lit (js "insert"))
           (Alt (Lit (js "update")) (Lit (js "delete")))))) s cs s' cs' ->
  exists tag name,
    s = tag ++ s' /\ name ∈ statementTags /\
    strip_prefix ic name tag = Some [] /\ cs' = (i, tag) :: cs.
Proof.
  intros Hm. apply matches_Grp_inv in Hm as (cs1 & Hm & ->).
  assert (Hcase : exists name, name ∈ statementTags /\
                    strip_prefix ic name s = Some s' /\ cs1 = cs).
  { unfold statementTags.
    repeat (apply matches_Alt_inv in Hm as [Hm|Hm]);
      apply matches_Lit in Hm as [Hs ->]; eexists; (split; [|done]);
      rewrite !elem_of_cons; tauto. }
  destruct Hcase as (name & Hname & Hs & ->).
  destruct (strip_prefix_split _ _ _ _ Hs) as (tag & -> & Htag).
  exists tag, name. split; [done|]. split; [done|]. split; [done|].
  f_equal. f_equal. rewrite length_app.
  replace (length tag + length s' - length s') with (length tag) by lia.
  by rewrite take_app_length.
Qed.

(** *** Building matches *)

Lemma any_char_true (c : ascii) : any_char c = true.
Proof. unfold any_char. by destruct (is_space c). Qed.

Lemma forallb_any_char (u : jsstring) : forallb any_char u = true.
Proof.
  induction u as [|c u IH]; [done|]. cbn [forallb]. by rewrite any_char_true.
Qed.

Lemma take_app_suffix (u s : jsstring) :
  take (length (u ++ s) - length s) (u ++ s) = u.
Proof.
  rewrite length_app.
  replace (length u + length s - length s) with (length u) by lia.
  by rewrite take_app_length.
Qed.

Lemma matches_Star_intro ic g p u s cs :
  forallb p u = true -> matches ic (Star g p) (u ++ s) cs s cs.
Proof.
  induction u as [|x u IH]; cbn [forallb app]; [constructor|].
  intros [Hx Hu]%andb_prop. constructor; [done|by apply IH].
Qed.

Lemma matches_Plus_intro ic p u s cs :
  u <> [] -> forallb p u = true -> matches ic (Plus p) (u ++ s) cs s cs.
Proof.
  destruct u as [|x u]; [done|]. cbn [forallb app].
  intros _ [Hx Hu]%andb_prop. unfold Plus.
  econstructor; [by constructor|]. by apply matches_Star_intro.
Qed.

Lemma strip_prefix_app ic t : forall t' s,
  strip_prefix ic t t' = Some [] -> strip_prefix ic t (t' ++ s) = Some s.
Proof.
  induction t as [|a t IH]; intros t' s; cbn [strip_prefix].
  - by intros [= ->].
  - destruct t' as [|b t']; [done|]. cbn [app].
    destruct (chr_match ic a b); [|done]. apply IH.
Qed.

Lemma matches_Lit_intro ic t t' s cs :
  strip_prefix ic t t' = Some [] -> matches ic (Lit t) (t' ++ s) cs s cs.
Proof. intros Ht. apply matches_Lit. split; [by apply strip_prefix_app|done]. Qed.

Lemma matches_Grp_intro ic i r t s cs cs' :
  matches ic r (t ++ s) cs s cs' ->
  matches ic (Grp i r) (t ++ s) cs s ((i, t) :: cs').
Proof.
  intros Hm. apply (matches_grp ic i) in Hm. by rewrite take_app_suffix in Hm.
Qed.

(** A sequence of pieces matches what its first pieces and then its last
    pieces match. *)
Lemma matches_Cat_app ic rs1 : forall rs2 s cs s' cs',
  rs1 <> [] -> rs2 <> [] ->
  matches ic (Cat (rs1 ++ rs2)) s cs s' cs' <->
  exists s1 cs1,
    matches ic (Cat rs1) s cs s1 cs1 /\ matches ic (Cat rs2) s1 cs1 s' cs'.
Proof.
  induction rs1 as [|r rs1 IH]; intros rs2 s cs s' cs' Hne1 Hne2; [done|].
  destruct rs1 as [|r' rs1].
  - destruct rs2 as [|r2 rs2]; [done|].
    change (Cat ([r] ++ r2 :: rs2)) with (Seq r (Cat (r2 :: rs2))).
    change (Cat [r]) with r. split.
    + by intros Hm%matches_Seq_inv.
    + intros (s1 & cs1 & H1 & H2). by econstructor.
  - change (Cat ((r :: r' :: rs1) ++ rs2))
      with (Seq r (Cat ((r' :: rs1) ++ rs2))).
    change (Cat (r :: r' :: rs1)) with (Seq r (Cat (r' :: rs1))). split.
    + intros (s0 & cs0 & H0 & Hm)%matches_Seq_inv.
      apply IH in Hm as (s1 & cs1 & H1 & H2); [|done..].
      exists s1, cs1. split; [by econstructor|done].
    + intros (s1 & cs1 & (s0 & cs0 & H0 & H1)%matches_Seq_inv & H2).
      econstructor; [done|]. apply IH; [done..|]. eauto.
Qed.

Lemma matches_statement_tag_intro i name tag s cs :
  name ∈ statementTags -> eq_ignore_case name tag ->
  matches true
    (Grp i (Alt (Lit (js "select")) (Alt (Lit (js "insert"))
           (Alt (Lit (js "update")) (Lit (js "delete")))))) (tag ++ s) cs s
    ((i, tag) :: cs).
Proof.
  intros Hname Htag. apply matches_Grp_intro.
  unfold statementTags in Hname. rewrite !elem_of_cons in Hname.
  destruct Hname as [->|[->|[->|[->|Hnil]]]];
    [| | | |by apply elem_of_nil in Hnil].
  - apply matches_alt_l. by apply matches_Lit_intro.
  - apply matches_alt_r, matches_alt_l. by apply matches_Lit_intro.
  - apply matches_alt_r, matches_alt_r, matches_alt_l. by apply matches_Lit_intro.
  - apply matches_alt_r, matches_alt_r, matches_alt_r. by apply matches_Lit_intro.
Qed.

(** *** The pieces of the statement pattern *)

(** What the head of a statement pattern matches. *)
Lemma tagHead_matches (s s' : jsstring) (cs' : captures) :
  matches true (Cat tagHeadPieces) s [] s' cs' <->
  exists tag name sp attrs kw w1 w2 q1,
    s = js "<" ++ tag ++ sp ++ attrs ++ kw ++ w1 ++ js "=" ++ w2 ++ q1 :: s' /\
    name ∈ statementTags /\ eq_ignore_case name tag /\
    sp <> [] /\ forallb is_space sp = true /\
    forallb not_gt attrs = true /\
    eq_ignore_case (js "id") kw /\
    forallb is_space w1 = true /\ forallb is_space w2 = true /\
    is_quote q1 = true /\ cs' = [(1, tag)].
Proof.
  unfold tagHeadPieces. cbn [Cat]. split.
  - intros Hm.
    apply matches_Seq_inv in Hm as (s1 & cs1 & H1 & Hm).
    apply matches_Seq_inv in Hm as (s2 & cs2 & H2 & Hm).
    apply matches_Chr_inv in H1 as (x & -> & Hx & ->).
    apply chr_match_punct in Hx as ->; [|reflexivity].
    apply matches_statement_tag in H2 as (tag & name & -> & Hname & Htag & ->).
    apply matches_Seq_inv in Hm as (s3 & cs3 & Hp & Hm).
    apply matches_Plus_inv in Hp as [-> (sp0 & sp & -> & Hsp)].
    apply matches_Seq_inv in Hm as (s4 & cs4 & Hp & Hm).
    apply matches_Star_inv in Hp as [-> (u1 & -> & Hu1)].
    apply matches_Seq_inv in Hm as (s5 & cs5 & Hp & Hm).
    apply matches_Lit in Hp as [Hkw ->].
    apply strip_prefix_split in Hkw as (kw & -> & Hkw).
    apply matches_Seq_inv in Hm as (s6 & cs6 & Hp & Hm).
    apply matches_Star_inv in Hp as [-> (w1 & -> & Hw1)].
    apply matches_Seq_inv in Hm as (s7 & cs7 & Hp & Hm).
    apply matches_Chr_inv in Hp as (eq & -> & Heq & ->).
    apply chr_match_punct in Heq as ->; [|reflexivity].
    apply matches_Seq_inv in Hm as (s8 & cs8 & Hp & Hm).
    apply matches_Star_inv in Hp as [-> (w2 & -> & Hw2)].
    apply matches_Cls_inv in Hm as (q1 & -> & Hq1 & ->).
    exists tag, name, (sp0 :: sp), u1, kw, w1, w2, q1.
    split; [|by repeat split].
    cbn [js list_ascii_of_string].
    repeat (rewrite <- app_assoc; cbn [app]). reflexivity.
  - intros (tag & name & sp & attrs & kw & w1 & w2 & q1 & -> & Hname & Htag &
            Hsp & Hsp' & Hattrs & Hkw & Hw1 & Hw2 & Hq1 & ->).
    cbn [js list_ascii_of_string app].
    eapply matches_seq; [by apply matches_chr|].
    eapply matches_seq; [by apply (matches_statement_tag_intro 1 name)|].
    eapply matches_seq; [by apply matches_Plus_intro|].
    eapply matches_seq; [by apply matches_Star_intro|].
    eapply matches_seq; [by apply (matches_Lit_intro true (js "id"))|].
    eapply matches_seq; [by apply matches_Star_intro|].
    eapply matches_seq; [by apply matches_chr|].
    eapply matches_seq; [by apply matches_Star_intro|].
    by apply matches_cls.
Qed.

Ltac list_eq :=
  cbn [js list_ascii_of_string];
  repeat first [rewrite <- app_assoc | progress cbn [app]]; reflexivity.

(** What the closing tag of the statement pattern matches, once group 1
    holds the tag name. *)
Lemma statementClosing_matches (tag s : jsstring) (cs : captures)
    (s' : jsstring) (cs' : captures) :
  capture 1 cs = Some tag ->
  matches true statementClosing s cs s' cs' <->
  exists closing, s = closing ++ s' /\ closingTag tag closing /\ cs' = cs.
Proof.
  intros Hcap. unfold statementClosing. cbn [Cat]. split.
  - intros Hm.
    apply matches_Seq_inv in Hm as (s1 & cs1 & Hp & Hm).
    apply matches_Lit in Hp as [Hcl ->].
    apply strip_prefix_close in Hcl as ->.
    apply matches_Seq_inv in Hm as (s2 & cs2 & Hp & Hm).
    apply matches_Chr_inv in Hm as (gt & -> & Hgt & ->).
    apply chr_match_punct in Hgt as ->; [|reflexivity].
    inversion Hp as [| | | | | | | | |i0 s0 cs0 Hcap'|i0 t0 s0 s0' cs0 Hcap' Hpre];
      subst; [congruence|].
    rewrite Hcap in Hcap'. injection Hcap' as <-.
    apply strip_prefix_split in Hpre as (tag' & -> & Htag').
    exists (js "</" ++ tag' ++ js ">"). split; [list_eq|]. split; [|done].
    by exists tag'.
  - intros (closing & -> & (tag' & -> & Htag') & ->).
    rewrite <- !app_assoc.
    eapply matches_seq;
      [apply (matches_Lit_intro true (js "</") (js "</")); reflexivity|].
    eapply matches_seq;
      [eapply matches_bref; [exact Hcap|by apply strip_prefix_app]|].
    by apply matches_chr.
Qed.

(** What the opening tag of the statement pattern matches. *)
Lemma statementOpening_matches (statementId s s' : jsstring) (cs' : captures) :
  matches true (Cat (tagHeadPieces ++ idAndTagEndPieces statementId))
    s [] s' cs' <->
  exists tag opening,
    s = opening ++ s' /\ openingTag statementId tag opening /\
    cs' = [(1, tag)].
Proof.
  rewrite matches_Cat_app by done. split.
  - intros (s1 & cs1 & Hhead & Hm).
    apply tagHead_matches in Hhead
      as (tag & name & sp & attrs & kw & w1 & w2 & q1 & -> & Hname & Htag &
          Hsp & Hsp' & Hattrs & Hkw & Hw1 & Hw2 & Hq1 & ->).
    unfold idAndTagEndPieces in Hm. cbn [Cat] in Hm.
    apply matches_Seq_inv in Hm as (s2 & cs2 & Hp & Hm).
    rewrite literalPattern_escapeRegex in Hp.
    apply matches_Lit in Hp as [Hid ->].
    apply strip_prefix_split in Hid as (value & -> & Hid).
    apply matches_Seq_inv in Hm as (s3 & cs3 & Hp & Hm).
    apply matches_Cls_inv in Hp as (q2 & -> & Hq2 & ->).
    apply matches_Seq_inv in Hm as (s4 & cs4 & Hp & Hm).
    apply matches_Star_inv in Hp as [-> (u2 & -> & Hu2)].
    apply matches_Chr_inv in Hm as (gt & -> & Hgt & ->).
    apply chr_match_punct in Hgt as ->; [|reflexivity].
    exists tag,
      ((js "<" ++ tag ++ sp ++ attrs ++ kw ++ w1 ++ js "=" ++ w2 ++
        q1 :: value ++ [q2]) ++ u2 ++ js ">").
    split; [list_eq|]. split; [|done].
    eexists _, value, u2. split; [done|]. split; [|done].
    exists name, sp, attrs, kw, w1, w2, q1, q2. by repeat split.
  - intros (tag & opening & -> &
            (head & value & attrs' & -> &
             (name & sp & attrs & kw & w1 & w2 & q1 & q2 & -> & Hname & Htag &
              Hsp & Hsp' & Hattrs & Hkw & Hw1 & Hw2 & Hq1 & Hq2) &
             Hid & Hattrs') & ->).
    exists (value ++ q2 :: attrs' ++ js ">" ++ s'), [(1, tag)]. split.
    + apply tagHead_matches. exists tag, name, sp, attrs, kw, w1, w2, q1.
      split; [list_eq|by repeat split].
    + unfold idAndTagEndPieces. cbn [Cat].
      eapply matches_seq;
        [rewrite literalPattern_escapeRegex; by apply matches_Lit_intro|].
      eapply matches_seq; [by apply matches_cls|].
      eapply matches_seq; [by apply matches_Star_intro|].
      by apply matches_chr.
Qed.

Lemma statementRegex_pieces (statementId : jsstring) :
  statementRegex statementId =
  Cat ((tagHeadPieces ++ idAndTagEndPieces statementId) ++
       [Grp 2 (Star false any_char); Lit (js "</"); Bref 1; Chr ">"]).
Proof. reflexivity. Qed.

(** What the statement pattern matches: a statement element that carries
    the id; group 1 is its tag name and group 2 its text. *)
Lemma statementRegex_matches (statementId text after : jsstring)
    (cs : captures) :
  matches true (statementRegex statementId) text [] after cs <->
  exists tag opening body closing,
    text = opening ++ body ++ closing ++ after /\
    openingTag statementId tag opening /\ closingTag tag closing /\
    cs = [(2, body); (1, tag)].
Proof.
  rewrite statementRegex_pieces, matches_Cat_app by done.
  change (Cat [Grp 2 (Star false any_char); Lit (js "</"); Bref 1; Chr ">"])
    with (Seq (Grp 2 (Star false any_char)) statementClosing).
  split.
  - intros (s1 & cs1 & Hopen & Hm).
    apply statementOpening_matches in Hopen as (tag & opening & -> & Hopen & ->).
    apply matches_Seq_inv in Hm as (s2 & cs2 & Hbody & Hclose).
    apply matches_Grp_Star in Hbody as (body & -> & ->).
    apply (statementClosing_matches tag) in Hclose
      as (closing & -> & Hclose & ->); [|done].
    by exists tag, opening, body, closing.
  - intros (tag & opening & body & closing & -> & Hopen & Hclose & ->).
    exists (body ++ closing ++ after), [(1, tag)].
    split; [apply statementOpening_matches; eauto|].
    eapply matches_seq;
      [apply matches_Grp_intro, matches_Star_intro, forallb_any_char|].
    apply (statementClosing_matches tag); [done|]. eauto.
Qed.

(** *** The first match and the nearest closing tag *)

(** A lazy star stops at the first place where what follows it
    succeeds. *)
Lemma star_lazy_first p (k : jsstring -> option mstate) s x :
  star_lazy p k s = Some x ->
  exists u s',
    s = u ++ s' /\ k s' = Some x /\
    forall u1 u2, u = u1 ++ u2 -> u2 <> [] -> k (u2 ++ s') = None.
Proof.
  induction s as [|c t IH]; cbn [star_lazy].
  - destruct (k []) eqn:Hk; [|done]. intros [= ->].
    exists [], []. split; [done|]. split; [done|].
    intros u1 u2 Hu Hne. symmetry in Hu. by apply app_eq_nil in Hu as [_ ->].
  - destruct (k (c :: t)) eqn:Hk.
    + intros [= ->]. exists [], (c :: t). split; [done|]. split; [done|].
      intros u1 u2 Hu Hne. symmetry in Hu. by apply app_eq_nil in Hu as [_ ->].
    + destruct (p c); [|done]. intros Hx.
      destruct (IH Hx) as (u & s' & -> & Hks & Hfirst).
      exists (c :: u), s'. split; [done|]. split; [done|].
      intros u1 u2 Hu Hne. destruct u1 as [|c1 u1]; cbn [app] in Hu.
      * by subst u2.
      * injection Hu as _ Hu. by apply (Hfirst u1 u2).
Qed.

Lemma rmatch_Seq_sound ic r1 r2 s cs (k : cont) x :
  rmatch ic (Seq r1 r2) s cs k = Some x ->
  exists s1 cs1, matches ic r1 s cs s1 cs1 /\ rmatch ic r2 s1 cs1 k = Some x.
Proof. cbn [rmatch]. intros Hx. by apply rmatch_sound in Hx. Qed.

(** A lazy group before the rest of a pattern captures the shortest text
    after which the rest matches. *)
Lemma rmatch_lazy_body ic i p r s cs (k : cont) x :
  rmatch ic (Seq (Grp i (Star false p)) r) s cs k = Some x ->
  exists body rest,
    s = body ++ rest /\
    rmatch ic r rest ((i, body) :: cs) k = Some x /\
    forall b1 b2, body = b1 ++ b2 -> b2 <> [] ->
      rmatch ic r (b2 ++ rest) ((i, b1) :: cs) k = None.
Proof.
  cbn [rmatch]. intros Hx.
  apply star_lazy_first in Hx as (u & s' & -> & Hk & Hfirst).
  exists u, s'. split; [done|]. rewrite take_app_suffix in Hk. split; [done|].
  intros b1 b2 -> Hne. specialize (Hfirst b1 b2 eq_refl Hne).
  cbn beta in Hfirst. rewrite <- app_assoc in Hfirst.
  by rewrite take_app_suffix in Hfirst.
Qed.

(** [exec] returns the first place of the text where the pattern
    matches. *)
Lemma regex_exec_Some_first ic r s m :
  regex_exec ic r s = Some m ->
  exists before rest len,
    s = before ++ rest /\ length before = m_index m /\
    match_here ic r rest = Some (len, m_caps m) /\
    forall b1 b2, before = b1 ++ b2 -> b2 <> [] ->
      match_here ic r (b2 ++ rest) = None.
Proof.
  revert m. induction s as [|c t IH]; intros m; cbn [regex_exec].
  - destruct (match_here ic r []) as [[len cs]|] eqn:Hh; [|done].
    intros [= <-]. exists [], [], len.
    split; [done|]. split; [done|]. split; [done|].
    intros b1 b2 Hb Hne. symmetry in Hb. by apply app_eq_nil in Hb as [_ ->].
  - destruct (match_here ic r (c :: t)) as [[len cs]|] eqn:Hh.
    + intros [= <-]. exists [], (c :: t), len.
      split; [done|]. split; [done|]. split; [done|].
      intros b1 b2 Hb Hne. symmetry in Hb. by apply app_eq_nil in Hb as [_ ->].
    + destruct (regex_exec ic r t) as [m'|] eqn:Ht; [|done].
      intros [= <-]. cbn [m_caps m_index].
      destruct (IH m' eq_refl) as (before & rest & len & -> & Hi & Hm & Hfirst).
      exists (c :: before), rest, len.
      split; [done|]. split; [by cbn [length]; rewrite Hi|]. split; [done|].
      intros b1 b2 Hb Hne. destruct b1 as [|c1 b1]; cbn [app] in Hb.
      * by subst b2.
      * injection Hb as _ Hb. by apply (Hfirst b1 b2).
Qed.

(** A match of the statement pattern at the start of a text: a statement
    element whose text ends at the nearest closing tag of its name. *)
Lemma statement_match_here (statementId text : jsstring) (len : nat)
    (cs : captures) :
  match_here true (statementRegex statementId) text = Some (len, cs) ->
  exists tag opening body closing after,
    text = opening ++ body ++ closing ++ after /\
    openingTag statementId tag opening /\ closingTag tag closing /\
    cs = [(2, body); (1, tag)] /\
    forall b1 b2 c rest,
      body = b1 ++ b2 -> b2 <> [] -> b2 ++ closing ++ after = c ++ rest ->
      ~ closingTag tag c.
Proof.
  unfold match_here. intros Hm.
  destruct (rmatch true (statementRegex statementId) text [] _)
    as [[after cs0]|] eqn:Hr; [|done].
  injection Hm as _ <-.
  change (rmatch true
            (Seq (Cat (tagHeadPieces ++ idAndTagEndPieces statementId))
                 (Seq (Grp 2 (Star false any_char)) statementClosing))
            text [] (fun s' cs' => Some (s', cs')) = Some (after, cs0)) in Hr.
  apply rmatch_Seq_sound in Hr as (s1 & cs1 & Hopen & Hr).
  apply statementOpening_matches in Hopen as (tag & opening & -> & Hopen & ->).
  apply rmatch_lazy_body in Hr as (body & rest & -> & Hr & Hfirst).
  apply rmatch_sound in Hr as (s2 & cs2 & Hclose & [= -> ->]).
  apply (statementClosing_matches tag) in Hclose
    as (closing & -> & Hclose & ->); [|done].
  exists tag, opening, body, closing, after.
  split; [done|]. split; [done|]. split; [done|]. split; [done|].
  intros b1 b2 c rest' Hb Hne Heq Hc.
  specialize (Hfirst b1 b2 Hb Hne).
  assert (Hmatch : matches true statementClosing (b2 ++ closing ++ after)
                     [(2, b1); (1, tag)] rest' [(2, b1); (1, tag)]).
  { apply (statementClosing_matches tag); [done|]. exists c. by rewrite Heq. }
  destruct (rmatch_complete _ _ _ _ _ _ Hmatch (fun s' cs' => Some (s', cs')))
    as [y Hy]; [by eexists|]. congruence.
Qed.

(** The lookup of a statement finds a statement element that carries the
    id. *)
Lemma extractStatementContent_element (content statementId body : jsstring) :
  extractStatementContent content statementId = Some body ->
  hasStatementElement statementId (removeXmlComments content).
Proof.
  unfold extractStatementContent.
  destruct (regex_exec true _ _) as [m|] eqn:Hm; [|done]. intros _.
  apply regex_exec_Some_split in Hm as (before & rest & after & Hsplit & Hm).
  apply statementRegex_matches in Hm
    as (tag & opening & body0 & closing & -> & Hopen & Hclose & _).
  exists before, (opening ++ body0 ++ closing ++ after). split; [done|].
  by exists tag, opening, body0, closing, after.
Qed.

(** The match that [exec] returns for the statement pattern is the first
    statement element that carries the id; group 2 is the text of the
    element, up to the nearest closing tag. *)
Lemma statementRegex_exec_first (statementId text : jsstring)
    (m : rmatch_result) :
  regex_exec true (statementRegex statementId) text = Some m ->
  exists before opening body closing after,
    firstStatementElement statementId text before opening body closing after /\
    m_group 2 m = body.
Proof.
  intros Hm. apply regex_exec_Some_first in Hm
    as (before & rest & len & Hsplit & _ & Hh & Hleft).
  apply statement_match_here in Hh
    as (tag & opening & body & closing & after & -> & Hopen & Hclose & Hcs &
        Hlazy).
  exists before, opening, body, closing, after.
  split; [|unfold m_group; by rewrite Hcs].
  exists tag. split; [done|]. split; [done|]. split; [done|]. split; [done|].
  intros b1 b2 Hb Hne
    (tag' & opening' & body' & closing' & after' & Heq & Hopen' & Hclose').
  specialize (Hleft b1 b2 Hb Hne).
  assert (Hmatch : matches true (statementRegex statementId)
                     (b2 ++ opening ++ body ++ closing ++ after) []
                     after' [(2, body'); (1, tag')]).
  { apply statementRegex_matches. by exists tag', opening', body', closing'. }
  apply match_here_complete in Hmatch as [y Hy]. congruence.
Qed.

(** X18. What [extractStatementContent] returns is the trimmed text of the
    first statement element that carries the id.  The document without
    its comments reads: some text, an opening tag (one of the four
    statement tag names up to letter case, white space, text without [>],
    the letters [id] up to letter case, an equals sign, the id between
    quotes up to letter case, text without [>], and [>]), the text of the
    element, the closing tag of the same name up to letter case, and the
    rest.  No closing tag of that name starts inside the text of the
    element, and no statement element that carries the id starts before
    the opening tag. *)
Theorem extractStatementContent_shape (content statementId body : jsstring) :
  extractStatementContent content statementId = Some body ->
  exists before opening body0 closing after,
    firstStatementElement statementId (removeXmlComments content)
      before opening body0 closing after /\
    body = trim body0.
Proof.
  unfold extractStatementContent.
  destruct (regex_exec true _ _) as [m|] eqn:Hm; [|done]. intros [= <-].
  apply statementRegex_exec_first in Hm
    as (before & opening & body0 & closing & after & Hfirst & ->).
  by exists before, opening, body0, closing, after.
Qed.

Lemma extractStatementContent_shape_witness :
  extractStatementContent nestedDocument (js "S") =
    Some (js "select <include refid='B'/> from t") /\
  exists before opening body0 closing after,
    firstStatementElement (js "S") (removeXmlComments nestedDocument)
      before opening body0 closing after /\
    js "select <include refid='B'/> from t" = trim body0.
Proof.
  split; [vm_compute; reflexivity|].
  apply (extractStatementContent_shape nestedDocument (js "S")
           (js "select <include refid='B'/> from t")).
  vm_compute; reflexivity.
Defined.

(** *** The element that is found *)

Lemma eq_ignore_case_length (a : jsstring) : forall b,
  eq_ignore_case a b -> length b = length a.
Proof.
  unfold eq_ignore_case.
  induction a as [|x a IH]; intros b; cbn [strip_prefix].
  - by intros [= ->].
  - destruct b as [|y b]; [done|]. destruct (chr_match true x y); [|done].
    intros Hs. cbn [length]. by rewrite (IH _ Hs).
Qed.

(** Under the [i] flag only [>] matches [>]. *)
Lemma chr_match_gt (a : ascii) :
  chr_match true a ">" = true -> a = ">"%char.
Proof.
  pose proof (all_units_complete a) as Hin. apply list_elem_of_In in Hin.
  assert (Hall : forallb (fun y =>
            implb (chr_match true y ">") (chr_eqb y ">")) all_units = true)
    by (vm_compute; reflexivity).
  rewrite forallb_forall in Hall. specialize (Hall a Hin).
  intros Hm. rewrite Hm in Hall. cbn in Hall.
  unfold chr_eqb in Hall. by apply Ascii.eqb_eq in Hall.
Qed.

Lemma eq_ignore_case_no_gt (a : jsstring) : forall b,
  eq_ignore_case a b -> ">"%char ∉ a -> ">"%char ∉ b.
Proof.
  unfold eq_ignore_case.
  induction a as [|x a IH]; intros b; cbn [strip_prefix].
  - by intros [= ->].
  - destruct b as [|y b]; [done|].
    destruct (chr_match true x y) eqn:Hxy; [|done].
    intros Hs [Hx Ha]%not_elem_of_cons. apply not_elem_of_cons. split.
    + intros <-. by apply chr_match_gt in Hxy.
    + by apply IH.
Qed.

Lemma forallb_not_gt (u : jsstring) :
  forallb not_gt u = true -> ">"%char ∉ u.
Proof.
  intros Hu Hin. rewrite forallb_forall in Hu.
  specialize (Hu _ (proj1 (list_elem_of_In _ _) Hin)).
  unfold not_gt, chr_eqb in Hu. by rewrite Ascii.eqb_refl in Hu.
Qed.

Lemma forallb_space_no_gt (u : jsstring) :
  forallb is_space u = true -> ">"%char ∉ u.
Proof.
  intros Hu Hin. rewrite forallb_forall in Hu.
  by specialize (Hu _ (proj1 (list_elem_of_In _ _) Hin)).
Qed.

Lemma statementTag_length (name : jsstring) :
  name ∈ statementTags -> length name = 6 /\ ">"%char ∉ name.
Proof.
  unfold statementTags. rewrite !elem_of_cons.
  intros [->|[->|[->|[->|Hnil]]]]; [| | | |by apply elem_of_nil in Hnil];
    (split; [reflexivity|apply (bool_decide_unpack _); vm_compute; reflexivity]).
Qed.

(** An opening tag whose id has no [>] ends at its first [>], six
    letters after its [<]. *)
Lemma openingTag_first_gt (statementId tag opening : jsstring) :
  ">"%char ∉ statementId ->
  openingTag statementId tag opening ->
  length tag = 6 /\
  exists inner,
    opening = (js "<" ++ tag ++ inner) ++ [">"%char] /\
    ">"%char ∉ js "<" ++ tag ++ inner.
Proof.
  intros Hid (head & value & attrs' & -> &
              (name & sp & attrs & kw & w1 & w2 & q1 & q2 & -> & Hname & Htag &
               Hsp & Hsp' & Hattrs & Hkw & Hw1 & Hw2 & Hq1 & Hq2) &
              Hvalue & Hattrs').
  destruct (statementTag_length _ Hname) as [Hlen Hgt].
  split; [by rewrite (eq_ignore_case_length _ _ Htag)|].
  exists (sp ++ attrs ++ kw ++ w1 ++ js "=" ++ w2 ++ q1 :: value ++ [q2] ++
          attrs').
  split; [list_eq|].
  assert (Hq : forall q, is_quote q = true -> ">"%char <> q)
    by (by intros q Hq <-).
  assert (Hkw' : ">"%char ∉ kw).
  { apply (eq_ignore_case_no_gt (js "id")); [done|].
    apply (bool_decide_unpack _). vm_compute. reflexivity. }
  cbn [js list_ascii_of_string app].
  rewrite !not_elem_of_cons, !not_elem_of_app, !not_elem_of_cons,
    !not_elem_of_app, !not_elem_of_cons.
  split; [done|]. split; [by eapply eq_ignore_case_no_gt|].
  split; [by apply forallb_space_no_gt|].
  split; [by apply forallb_not_gt|]. split; [done|].
  split; [by apply forallb_space_no_gt|]. split; [done|].
  split; [by apply forallb_space_no_gt|]. split; [by apply Hq|].
  rewrite not_elem_of_app, not_elem_of_cons.
  split; [by eapply eq_ignore_case_no_gt|].
  split; [by apply Hq|by apply forallb_not_gt].
Qed.

(** Two readings of the same text as first statement element agree on the
    text of the element. *)
Lemma firstStatementElement_unique
    (statementId text : jsstring)
    (before opening body closing after : jsstring)
    (before' opening' body' closing' after' : jsstring) :
  ">"%char ∉ statementId ->
  firstStatementElement statementId text before opening body closing after ->
  firstStatementElement statementId text
    before' opening' body' closing' after' ->
  body = body'.
Proof.
  intros Hid (tag & Htext & Hopen & Hclose & Hlazy & Hleft)
             (tag' & Htext' & Hopen' & Hclose' & Hlazy' & Hleft').
  assert (Hel : statementElement statementId
                  (opening ++ body ++ closing ++ after))
    by (by exists tag, opening, body, closing, after).
  assert (Hel' : statementElement statementId
                   (opening' ++ body' ++ closing' ++ after'))
    by (by exists tag', opening', body', closing', after').
  (* the same place *)
  assert (Hsame : before = before' /\
                  opening ++ body ++ closing ++ after =
                  opening' ++ body' ++ closing' ++ after').
  { rewrite Htext in Htext'. apply app_eq_inv in Htext' as [(l & Hb & Hr)|(l & Hb & Hr)].
    - destruct l as [|c l].
      + rewrite app_nil_r in Hb. by rewrite Hb, Hr.
      + exfalso. apply (Hleft before' (c :: l) Hb); [done|]. by rewrite <- Hr.
    - destruct l as [|c l].
      + rewrite app_nil_r in Hb. by rewrite Hb, Hr.
      + exfalso. apply (Hleft' before (c :: l) Hb); [done|]. by rewrite <- Hr. }
  destruct Hsame as [_ Hrest].
  (* the same opening tag *)
  destruct (openingTag_first_gt _ _ _ Hid Hopen) as [Hlen (inner & -> & Hno)].
  destruct (openingTag_first_gt _ _ _ Hid Hopen')
    as [Hlen' (inner' & -> & Hno')].
  rewrite <- !(app_assoc _ [">"%char]) in Hrest. cbn [app] in Hrest.
  apply not_elem_of_app_cons_inv_l in Hrest as (Hin & _ & Hrest); [|done..].
  assert (Htag : tag = tag').
  { cbn [js list_ascii_of_string app] in Hin. injection Hin as Hin.
    apply app_inj_1 in Hin as [Hin _]; [done|congruence]. }
  subst tag'.
  (* the same nearest closing tag *)
  apply app_eq_inv in Hrest as [(l & Hb & Hr)|(l & Hb & Hr)].
  - destruct l as [|c l]; [by rewrite app_nil_r in Hb|].
    exfalso. apply (Hlazy body' (c :: l) closing' after' Hb); [done| |done].
    by rewrite Hr.
  - destruct l as [|c l]; [by rewrite app_nil_r in Hb|].
    exfalso. apply (Hlazy' body (c :: l) closing after Hb); [done| |done].
    by rewrite Hr.
Qed.

(** X21. [extractStatementContent] finds the first statement element that
    carries the id: when the document without its comments reads as some
    text, an opening statement tag that carries the id, the text of the
    element, the closing tag of the same name and the rest, with no
    closing tag of that name starting inside the text of the element and
    no statement element that carries the id starting before the opening
    tag, then the lookup returns the text of the element, trimmed (for an
    id without [>]). *)
Theorem extractStatementContent_first_element
    (content statementId before opening body0 closing after : jsstring) :
  ">"%char ∉ statementId ->
  firstStatementElement statementId (removeXmlComments content)
    before opening body0 closing after ->
  extractStatementContent content statementId = Some (trim body0).
Proof.
  intros Hid Hfirst. unfold extractStatementContent.
  destruct (regex_exec true _ _) as [m|] eqn:Hm.
  - apply statementRegex_exec_first in Hm
      as (before' & opening' & body' & closing' & after' & Hfirst' & ->).
    by rewrite (firstStatementElement_unique _ _ _ _ _ _ _ _ _ _ _ _
                  Hid Hfirst Hfirst').
  - exfalso. apply regex_exec_None in Hm. apply Hm.
    destruct Hfirst as (tag & Htext & Hopen & Hclose & _). rewrite Htext.
    exists before, (opening ++ body0 ++ closing ++ after), after,
      [(2, body0); (1, tag)].
    split; [done|]. apply statementRegex_matches.
    by exists tag, opening, body0, closing.
Qed.

(** Two ways to see that a reading is the first one and ends at the
    nearest closing tag: the index of the match that [exec] returns, and
    a text of the element without [<]. *)
Lemma first_element_at_index (statementId text before rest : jsstring) :
  option_map m_index (regex_exec true (statementRegex statementId) text) =
    Some (length before) ->
  text = before ++ rest ->
  forall b1 b2, before = b1 ++ b2 -> b2 <> [] ->
    ~ statementElement statementId (b2 ++ rest).
Proof.
  destruct (regex_exec true _ text) as [m|] eqn:Hm; [|done].
  cbn [option_map]. intros [= Hi] Htext b1 b2 Hb Hne
    (tag & opening & body & closing & after & Heq & Hopen & Hclose).
  apply regex_exec_Some_first in Hm
    as (before' & rest' & len & Htext' & Hi' & _ & Hleft).
  rewrite Htext in Htext'.
  apply app_inj_1 in Htext' as [<- <-]; [|congruence].
  specialize (Hleft b1 b2 Hb Hne).
  assert (Hmatch : matches true (statementRegex statementId) (b2 ++ rest) []
                     after [(2, body); (1, tag)]).
  { apply statementRegex_matches. by exists tag, opening, body, closing. }
  apply match_here_complete in Hmatch as [y Hy]. congruence.
Qed.

Lemma nearest_closing_without_lt (tag body closing after : jsstring) :
  "<"%char ∉ body ->
  forall b1 b2 c rest,
    body = b1 ++ b2 -> b2 <> [] ->
    b2 ++ closing ++ after = c ++ rest -> ~ closingTag tag c.
Proof.
  intros Hno b1 b2 c rest -> Hne Heq (tag' & -> & _).
  destruct b2 as [|x b2]; [done|]. cbn [js list_ascii_of_string app] in Heq.
  injection Heq as -> _. apply Hno. set_solver.
Qed.

Lemma extractStatementContent_first_element_witness :
  (">"%char ∉ js "selectUser") /\
  firstStatementElement (js "selectUser") (removeXmlComments plainDocument)
    (js "<mapper namespace='com.example.mapper.TestMapper'>
  ")
    (js "<select id='selectUser' resultType='User'>")
    (js "
    select id, name from users
  ")
    (js "</select>")
    (js "
  <select id='empty'>
  </select>
</mapper>") /\
  extractStatementContent plainDocument (js "selectUser") =
    Some (trim (js "
    select id, name from users
  ")).
Proof.
  assert (Hid : ">"%char ∉ js "selectUser")
    by (apply (bool_decide_unpack _); vm_compute; reflexivity).
  assert (Hfirst :
    firstStatementElement (js "selectUser") (removeXmlComments plainDocument)
      (js "<mapper namespace='com.example.mapper.TestMapper'>
  ")
      (js "<select id='selectUser' resultType='User'>")
      (js "
    select id, name from users
  ")
      (js "</select>")
      (js "
  <select id='empty'>
  </select>
</mapper>")).
  { exists (js "select").
    split; [vm_compute; reflexivity|]. split; [|split; [|split]].
    - exists (js "<select id='selectUser'"), (js "selectUser"),
        (js " resultType='User'").
      split; [reflexivity|]. split; [|split; reflexivity].
      exists (js "select"), (js " "), [], (js "id"), [], [], SQ, SQ.
      split; [reflexivity|].
      split; [apply (bool_decide_unpack _); vm_compute; reflexivity|].
      repeat split; done.
    - exists (js "select"). split; reflexivity.
    - apply nearest_closing_without_lt.
      apply (bool_decide_unpack _). vm_compute. reflexivity.
    - apply (first_element_at_index (js "selectUser")
               (removeXmlComments plainDocument));
        vm_compute; reflexivity. }
  split; [exact Hid|]. split; [exact Hfirst|].
  exact (extractStatementContent_first_element plainDocument (js "selectUser")
           _ _ _ _ _ Hid Hfirst).
Defined.

(** ** What composeSql returns *)

(** X14. When [composeSql] returns text, the document without its comments
    has a statement element that carries the id as the statement pattern
    reads it (an element with a statement tag name in whose opening tag
    the letters [id], an equals sign and the id between quotes stand, all
    up to letter case), the text has no inclusion marker left, and the
    world (files and console) is as it was. *)
Theorem composeSql_text_without_marker (stack : nat) (w w' : world)
    (xmlFilePath statementId sql : jsstring) :
  composeSql stack w xmlFilePath statementId = (Composed sql, w') ->
  hasStatementElement statementId
    (removeXmlComments (readFile w xmlFilePath)) /\
  ~ hasMarker sql /\ w' = w.
Proof.
  intros Hc. apply composeSql_Composed in Hc as [-> (body & Hb & _ & Hr)].
  split; [by eapply extractStatementContent_element|].
  split; [by eapply resolveIncludes_marker_free|done].
Qed.

Lemma composeSql_text_without_marker_witness :
  composeSql 3 (one_file (js "UserMapper.xml") nestedDocument)
    (js "UserMapper.xml") (js "S") =
    (Composed (js "select x, y, z from t"),
     one_file (js "UserMapper.xml") nestedDocument) /\
  hasStatementElement (js "S")
    (removeXmlComments
       (readFile (one_file (js "UserMapper.xml") nestedDocument)
          (js "UserMapper.xml"))) /\
  ~ hasMarker (js "select x, y, z from t") /\
  one_file (js "UserMapper.xml") nestedDocument =
  one_file (js "UserMapper.xml") nestedDocument.
Proof.
  split; [vm_compute; reflexivity|].
  apply (composeSql_text_without_marker 3
           (one_file (js "UserMapper.xml") nestedDocument)
           (one_file (js "UserMapper.xml") nestedDocument)
           (js "UserMapper.xml") (js "S") (js "select x, y, z from t")).
  vm_compute; reflexivity.
Defined.

(** ** hasIncludes *)

Lemma chr_match_ignore_case a b :
  chr_match false a b = true -> chr_match true a b = true.
Proof.
  unfold chr_match, chr_eqb. intros Hab. apply Ascii.eqb_eq in Hab as ->.
  apply Ascii.eqb_refl.
Qed.

Lemma strip_prefix_ignore_case t : forall s s',
  strip_prefix false t s = Some s' -> strip_prefix true t s = Some s'.
Proof.
  induction t as [|a t IH]; intros s s'; cbn [strip_prefix]; [done|].
  destruct s as [|b s]; [done|].
  destruct (chr_match false a b) eqn:Hab; [|done].
  rewrite (chr_match_ignore_case _ _ Hab). apply IH.
Qed.

(** What matches letter by letter matches under the [i] flag. *)
Lemma matches_ignore_case r s cs s' cs' :
  matches false r s cs s' cs' -> matches true r s cs s' cs'.
Proof.
  induction 1; try (by econstructor).
  - constructor. by apply chr_match_ignore_case.
  - eapply matches_bref; [done|]. by apply strip_prefix_ignore_case.
Qed.

Lemma matches_Star_captures ic g p s cs s' cs0 :
  matches ic (Star g p) s cs s' cs -> matches ic (Star g p) s cs0 s' cs0.
Proof.
  intros Hm. apply matches_Star_inv in Hm as [_ (u & -> & Hu)].
  induction u as [|x u IH]; [constructor|].
  cbn [forallb] in Hu. apply andb_prop in Hu as [Hx Hu].
  cbn [app]. constructor; [done|]. by apply IH.
Qed.

(** A pattern without back-reference matches what it matches without its
    groups. *)
Lemma matches_ungroup ic r : forall s cs0 s' cs0' cs,
  no_bref r = true ->
  matches ic (ungroup r) s cs0 s' cs0' ->
  exists cs', matches ic r s cs s' cs'.
Proof.
  induction r as [c|p| |r1 IH1 r2 IH2|r1 IH1 r2 IH2|g p|i r IH|i];
    intros s cs0 s' cs0' cs Hnb Hm; cbn [ungroup no_bref] in *.
  - inversion Hm; subst. eexists. by constructor.
  - inversion Hm; subst. eexists. by constructor.
  - inversion Hm; subst. eexists. constructor.
  - apply andb_prop in Hnb as [Hn1 Hn2].
    apply matches_Seq_inv in Hm as (s1 & cs1 & H1 & H2).
    destruct (IH1 _ _ _ _ cs Hn1 H1) as [cs1' H1'].
    destruct (IH2 _ _ _ _ cs1' Hn2 H2) as [cs2' H2'].
    eexists. by econstructor.
  - apply andb_prop in Hnb as [Hn1 Hn2].
    apply matches_Alt_inv in Hm as [Hm|Hm].
    + destruct (IH1 _ _ _ _ cs Hn1 Hm) as [cs' H']. eexists.
      by apply matches_alt_l.
    + destruct (IH2 _ _ _ _ cs Hn2 Hm) as [cs' H']. eexists.
      by apply matches_alt_r.
  - exists cs. pose proof (matches_star_captures _ _ _ _ _ _ _ Hm) as ->.
    by eapply matches_Star_captures.
  - destruct (IH _ _ _ _ cs Hnb Hm) as [cs' H']. eexists. by constructor.
  - done.
Qed.

(** A marker that [hasIncludes] sees is a marker for [resolveIncludes]. *)
Lemma hasIncludesRegex_marker (sql : jsstring) :
  regex_test false hasIncludesRegex sql = true -> hasMarker sql.
Proof.
  intros Ht. apply regex_test_true_occurs in Ht
    as (before & rest & after & cs & -> & Hm).
  apply matches_ignore_case in Hm.
  destruct (matches_ungroup true includeRegex rest [] after cs [] eq_refl Hm)
    as [cs' Hm'].
  by exists before, rest, after, cs'.
Qed.

(** X15. When [hasIncludes] answers true, the document without its
    comments has a statement element that carries the id as the statement
    pattern reads it, the trimmed text that the lookup returns is not
    empty and has an inclusion marker for [resolveIncludes], and
    [composeSql] does not end in its not-found return for that id. *)
Theorem hasIncludes_true (w : world) (xmlFilePath statementId : jsstring) :
  hasIncludes w xmlFilePath statementId = true ->
  hasStatementElement statementId
    (removeXmlComments (readFile w xmlFilePath)) /\
  (exists body,
     extractStatementContent (readFile w xmlFilePath) statementId = Some body /\
     body <> [] /\ hasMarker body) /\
  forall stack, (composeSql stack w xmlFilePath statementId).1 <> NotFound.
Proof.
  unfold hasIncludes. intros Hh.
  destruct (extractStatementContent _ _) as [[|c body]|] eqn:Hb;
    [done| |done].
  split; [|split].
  - by eapply extractStatementContent_element.
  - exists (c :: body). split; [done|]. split; [done|].
    by apply hasIncludesRegex_marker.
  - intros stack. rewrite composeSql_unfold, Hb.
    by destruct (resolveIncludes _ _ _ _).
Qed.

Lemma hasIncludes_true_witness :
  hasIncludes (one_file (js "UserMapper.xml") nestedDocument)
    (js "UserMapper.xml") (js "S") = true /\
  hasStatementElement (js "S")
    (removeXmlComments
       (readFile (one_file (js "UserMapper.xml") nestedDocument)
          (js "UserMapper.xml"))) /\
  (exists body,
     extractStatementContent
       (readFile (one_file (js "UserMapper.xml") nestedDocument)
          (js "UserMapper.xml")) (js "S") = Some body /\
     body <> [] /\ hasMarker body) /\
  forall stack,
    (composeSql stack (one_file (js "UserMapper.xml") nestedDocument)
       (js "UserMapper.xml") (js "S")).1 <> NotFound.
Proof.
  split; [vm_compute; reflexivity|].
  apply (hasIncludes_true (one_file (js "UserMapper.xml") nestedDocument)
           (js "UserMapper.xml") (js "S")).
  vm_compute; reflexivity.
Defined.

(** ** The hovers *)

Lemma hover_statementRegex_pieces :
  XmlSqlHoverProvider.statementRegex =
  Cat (tagHeadPieces ++ [Grp 2 (Plus not_quote); Cls is_quote]).
Proof. reflexivity. Qed.

(** The id that the XML provider reads from a line: the line has the
    beginning of an opening statement tag up to a quoted id, and the id
    is the text between the quotes. *)
Lemma hover_statementRegex_line (lineText : jsstring) (m : rmatch_result) :
  regex_exec true XmlSqlHoverProvider.statementRegex lineText = Some m ->
  exists before tag head after,
    lineText = before ++ head ++ after /\
    tagUpToId tag (m_group 2 m) head /\
    m_group 2 m <> [] /\ forallb not_quote (m_group 2 m) = true.
Proof.
  intros Hm. apply regex_exec_Some_split in Hm
    as (before & rest & after & -> & Hm).
  destruct m as [index text caps]. unfold m_group. cbn [m_caps] in *.
  rewrite hover_statementRegex_pieces, matches_Cat_app in Hm by done.
  destruct Hm as (s1 & cs1 & Hhead & Hm).
  apply tagHead_matches in Hhead
    as (tag & name & sp & attrs & kw & w1 & w2 & q1 & -> & Hname & Htag &
        Hsp & Hsp' & Hattrs & Hkw & Hw1 & Hw2 & Hq1 & ->).
  cbn [Cat] in Hm.
  apply matches_Seq_inv in Hm as (s2 & cs2 & Hp & Hm).
  apply matches_Grp_Plus in Hp as (value & -> & Hne & Hq & ->).
  apply matches_Cls_inv in Hm as (q2 & -> & Hq2 & ->).
  cbn [capture Nat.eqb default].
  exists before, tag,
    (js "<" ++ tag ++ sp ++ attrs ++ kw ++ w1 ++ js "=" ++ w2 ++
     q1 :: value ++ [q2]), after.
  split; [f_equal; list_eq|]. split; [|done].
  exists name, sp, attrs, kw, w1, w2, q1, q2. by repeat split.
Qed.

(** X16. A hover of the XML provider: when [provideHover] shows a hover,
    the line under the cursor has the beginning of an opening statement
    tag up to a quoted id (a statement tag name, attributes, the letters
    [id] up to letter case, an equals sign, and a non-empty text without
    quotes between two quotes); the hover is the one for that id, its
    code block is the non-empty SQL that [composeSql] returns for that id
    with no inclusion marker left in it, the document without its
    comments has a statement element that carries the id as the statement
    pattern reads it, and the world is as it was. *)
Theorem xml_hover_shows_composed_sql (stack : nat) (w w' : world)
    (fsPath lineText : jsstring) (character : Z) (h : Hover) :
  XmlSqlHoverProvider.provideHover stack w fsPath lineText character =
    (Some h, w') ->
  w' = w /\
  hover_codeblock h <> [] /\
  ~ hasMarker (hover_codeblock h) /\
  exists statementId before tag head after,
    lineText = before ++ head ++ after /\
    tagUpToId tag statementId head /\
    statementId <> [] /\ forallb not_quote statementId = true /\
    h = composedSqlHover statementId (hover_codeblock h) /\
    hasStatementElement statementId (removeXmlComments (readFile w fsPath)) /\
    composeSql stack w fsPath statementId = (Composed (hover_codeblock h), w).
Proof.
  unfold XmlSqlHoverProvider.provideHover.
  destruct (regex_exec true XmlSqlHoverProvider.statementRegex lineText)
    as [m|] eqn:Hm; [|done].
  destruct (regex_exec true XmlSqlHoverProvider.idAttrRegex lineText)
    as [idMatch|]; [|done].
  destruct (_ || _); [done|].
  destruct (composeSql stack w fsPath (m_group 2 m)) as [o w0] eqn:Hc.
  destruct o as [sql| |]; cbn [returned]; [|done..].
  destruct sql as [|c sql]; [done|]. intros [= <- <-].
  cbn [hover_codeblock composedSqlHover].
  pose proof Hc as Hc'.
  apply composeSql_Composed in Hc' as [-> (body & Hb & _ & Hr)].
  destruct (hover_statementRegex_line _ _ Hm)
    as (before & tag & head & after & Hline & Hhead & Hne & Hq).
  split; [done|]. split; [done|].
  split; [by eapply resolveIncludes_marker_free|].
  exists (m_group 2 m), before, tag, head, after.
  split; [done|]. split; [done|]. split; [done|]. split; [done|].
  split; [done|]. split; [|done].
  by eapply extractStatementContent_element.
Qed.

(** X17. A hover of the Java provider: when [provideHover] shows a hover,
    the cursor is on a reported method (its line, between its columns), a
    mapping document path was found, and the code block of the hover is
    the non-empty SQL composed for the statement named like the method,
    with no inclusion marker left in it; the world is as it was. *)
Theorem java_hover_shows_composed_sql (stack : nat) (w w' : world)
    (methods : list JavaSqlHoverProvider.JavaMethod)
    (xmlPath : option jsstring) (positionLine positionCharacter : nat)
    (h : Hover) :
  JavaSqlHoverProvider.provideHover stack w methods xmlPath
    positionLine positionCharacter = (Some h, w') ->
  w' = w /\
  hover_codeblock h <> [] /\
  ~ hasMarker (hover_codeblock h) /\
  exists method path,
    method ∈ methods /\
    JavaSqlHoverProvider.line method = positionLine /\
    JavaSqlHoverProvider.startColumn method <= positionCharacter /\
    positionCharacter <= JavaSqlHoverProvider.endColumn method /\
    xmlPath = Some path /\ path <> [] /\
    h = composedSqlHover (JavaSqlHoverProvider.name method)
          (hover_codeblock h) /\
    declaresStatement (readFile w path) (JavaSqlHoverProvider.name method) /\
    composeSql stack w path (JavaSqlHoverProvider.name method) =
      (Composed (hover_codeblock h), w).
Proof.
  unfold JavaSqlHoverProvider.provideHover.
  destruct (find _ methods) as [method|] eqn:Hf; [|done].
  destruct xmlPath as [[|p path]|]; [done| |done].
  destruct (composeSql stack w (p :: path) _) as [o w0] eqn:Hc.
  destruct o as [sql| |]; cbn [returned]; [|done..].
  destruct sql as [|c sql]; [done|]. intros [= <- <-].
  cbn [hover_codeblock composedSqlHover].
  destruct (composeSql_text_parts _ _ _ _ _ _ Hc) as (Hd & Hno & ->).
  apply find_some in Hf as [Hin Hcond].
  apply andb_prop in Hcond as [Hcond Hend].
  apply andb_prop in Hcond as [Hline Hstart].
  apply Nat.eqb_eq in Hline. apply Nat.leb_le in Hstart, Hend.
  split; [done|]. split; [done|]. split; [done|].
  exists method, (p :: path). rewrite list_elem_of_In. by repeat split.
Qed.

Lemma xml_hover_shows_composed_sql_witness :
  XmlSqlHoverProvider.provideHover 3
    (one_file (js "UserMapper.xml") nestedDocument) (js "UserMapper.xml")
    (js "  <select id='S'>select <include refid='B'/> from t</select>") 15 =
    (Some (composedSqlHover (js "S") (js "select x, y, z from t")),
     one_file (js "UserMapper.xml") nestedDocument) /\
  one_file (js "UserMapper.xml") nestedDocument =
    one_file (js "UserMapper.xml") nestedDocument /\
  hover_codeblock (composedSqlHover (js "S") (js "select x, y, z from t"))
    <> [] /\
  ~ hasMarker
      (hover_codeblock (composedSqlHover (js "S") (js "select x, y, z from t"))) /\
  exists statementId before tag head after,
    js "  <select id='S'>select <include refid='B'/> from t</select>" =
      before ++ head ++ after /\
    tagUpToId tag statementId head /\
    statementId <> [] /\ forallb not_quote statementId = true /\
    composedSqlHover (js "S") (js "select x, y, z from t") =
      composedSqlHover statementId
        (hover_codeblock
           (composedSqlHover (js "S") (js "select x, y, z from t"))) /\
    hasStatementElement statementId
      (removeXmlComments
         (readFile (one_file (js "UserMapper.xml") nestedDocument)
            (js "UserMapper.xml"))) /\
    composeSql 3 (one_file (js "UserMapper.xml") nestedDocument)
      (js "UserMapper.xml") statementId =
      (Composed
         (hover_codeblock
            (composedSqlHover (js "S") (js "select x, y, z from t"))),
       one_file (js "UserMapper.xml") nestedDocument).
Proof.
  split; [vm_compute; reflexivity|].
  apply (xml_hover_shows_composed_sql 3
           (one_file (js "UserMapper.xml") nestedDocument)
           (one_file (js "UserMapper.xml") nestedDocument)
           (js "UserMapper.xml")
           (js "  <select id='S'>select <include refid='B'/> from t</select>")
           15 (composedSqlHover (js "S") (js "select x, y, z from t"))).
  vm_compute; reflexivity.
Defined.

Lemma java_hover_shows_composed_sql_witness :
  JavaSqlHoverProvider.provideHover 3
    (one_file (js "UserMapper.xml") nestedDocument)
    [JavaSqlHoverProvider.MkJavaMethod (js "S") 12 9 10]
    (Some (js "UserMapper.xml")) 12 10 =
    (Some (composedSqlHover (js "S") (js "select x, y, z from t")),
     one_file (js "UserMapper.xml") nestedDocument) /\
  one_file (js "UserMapper.xml") nestedDocument =
    one_file (js "UserMapper.xml") nestedDocument /\
  hover_codeblock (composedSqlHover (js "S") (js "select x, y, z from t"))
    <> [] /\
  ~ hasMarker
      (hover_codeblock (composedSqlHover (js "S") (js "select x, y, z from t"))) /\
  exists method path,
    method ∈ [JavaSqlHoverProvider.MkJavaMethod (js "S") 12 9 10] /\
    JavaSqlHoverProvider.line method = 12 /\
    JavaSqlHoverProvider.startColumn method <= 10 /\
    10 <= JavaSqlHoverProvider.endColumn method /\
    Some (js "UserMapper.xml") = Some path /\ path <> [] /\
    composedSqlHover (js "S") (js "select x, y, z from t") =
      composedSqlHover (JavaSqlHoverProvider.name method)
        (hover_codeblock
           (composedSqlHover (js "S") (js "select x, y, z from t"))) /\
    declaresStatement
      (readFile (one_file (js "UserMapper.xml") nestedDocument) path)
      (JavaSqlHoverProvider.name method) /\
    composeSql 3 (one_file (js "UserMapper.xml") nestedDocument) path
      (JavaSqlHoverProvider.name method) =
      (Composed
         (hover_codeblock
            (composedSqlHover (js "S") (js "select x, y, z from t"))),
       one_file (js "UserMapper.xml") nestedDocument).
Proof.
  split; [vm_compute; reflexivity|].
  apply (java_hover_shows_composed_sql 3
           (one_file (js "UserMapper.xml") nestedDocument)
           (one_file (js "UserMapper.xml") nestedDocument)
           [JavaSqlHoverProvider.MkJavaMethod (js "S") 12 9 10]
           (Some (js "UserMapper.xml")) 12 10
           (composedSqlHover (js "S") (js "select x, y, z from t"))).
  vm_compute; reflexivity.
Defined.

(** ** Documents without tags *)

Lemma exec_all_no_occurrence ic r s :
  ~ occurs ic r s -> exec_all ic r s = [].
Proof.
  intros Hno. apply exec_loop_no_match. by apply regex_exec_None.
Qed.

(** X19. A document without any [<] has nothing to offer: comment
    stripping leaves it as it is, its fragment map is empty, it declares
    no statement, and [composeSql] ends in the not-found return for every
    statement id. *)
Theorem document_without_tags (stack : nat) (w : world)
    (xmlFilePath statementId content : jsstring) :
  files w xmlFilePath = Some content ->
  "<"%char ∉ content ->
  removeXmlComments content = content /\
  extractSqlFragments content = ∅ /\
  ~ declaresStatement content statementId /\
  composeSql stack w xmlFilePath statementId = (NotFound, w).
Proof.
  intros Hfile Hno.
  assert (Hsame : removeXmlComments content = content).
  { unfold removeXmlComments. destruct content as [|c t]; [done|].
    apply replace_all_no_match. by apply no_lt_no_occurrence. }
  assert (Hdecl : ~ declaresStatement content statementId).
  { unfold declaresStatement. rewrite Hsame. by apply no_lt_no_occurrence. }
  split; [done|]. split; [|split; [done|]].
  - unfold extractSqlFragments, fragmentDeclarations. rewrite Hsame.
    rewrite exec_all_no_occurrence; [done|]. by apply no_lt_no_occurrence.
  - apply extractStatementContent_None in Hdecl.
    by rewrite composeSql_unfold, (readFile_content _ _ _ Hfile), Hdecl.
Qed.

Lemma document_without_tags_witness :
  files (one_file (js "notes.xml") (js "select 1 from dual where 2 > 1"))
    (js "notes.xml") = Some (js "select 1 from dual where 2 > 1") /\
  ("<"%char ∉ js "select 1 from dual where 2 > 1") /\
  removeXmlComments (js "select 1 from dual where 2 > 1") =
    js "select 1 from dual where 2 > 1" /\
  extractSqlFragments (js "select 1 from dual where 2 > 1") = ∅ /\
  ~ declaresStatement (js "select 1 from dual where 2 > 1") (js "selectUser") /\
  composeSql 1 (one_file (js "notes.xml") (js "select 1 from dual where 2 > 1"))
    (js "notes.xml") (js "selectUser") =
  (NotFound, one_file (js "notes.xml") (js "select 1 from dual where 2 > 1")).
Proof.
  split; [vm_compute; reflexivity|].
  split; [apply (bool_decide_unpack _); vm_compute; reflexivity|].
  apply (document_without_tags 1
           (one_file (js "notes.xml") (js "select 1 from dual where 2 > 1"))
           (js "notes.xml") (js "selectUser")
           (js "select 1 from dual where 2 > 1"));
    [vm_compute; reflexivity
    |apply (bool_decide_unpack _); vm_compute; reflexivity].
Defined.

(** ** Ids that the document does not mention *)

Lemma hasStatementElement_occurs (statementId text : jsstring) :
  hasStatementElement statementId text -> occurs_ignore_case statementId text.
Proof.
  intros (before & rest & -> &
          (tag & opening & body & closing & after & -> &
           (head & value & attrs' & -> &
            (name & sp & attrs & kw & w1 & w2 & q1 & q2 & -> & _) &
            Hid & _) & _)).
  exists (before ++ js "<" ++ tag ++ sp ++ attrs ++ kw ++ w1 ++ js "=" ++
          w2 ++ [q1]), value,
         (q2 :: attrs' ++ js ">" ++ body ++ closing ++ after).
  split; [|done]. rewrite <- !app_assoc. f_equal. list_eq.
Qed.

(** X20. An id that the document does not mention is not found: when the
    text of the id occurs nowhere in the document without its comments,
    not even up to letter case, [composeSql] ends in the not-found return
    on every stack and leaves the world as it was, and [hasIncludes]
    answers false. *)
Theorem composeSql_absent_id (stack : nat) (w : world)
    (xmlFilePath statementId : jsstring) :
  ~ occurs_ignore_case statementId
      (removeXmlComments (readFile w xmlFilePath)) ->
  composeSql stack w xmlFilePath statementId = (NotFound, w) /\
  hasIncludes w xmlFilePath statementId = false.
Proof.
  intros Hno.
  assert (Hnone : extractStatementContent (readFile w xmlFilePath) statementId
                  = None).
  { destruct (extractStatementContent _ _) as [body|] eqn:Hb; [|done].
    exfalso. apply Hno.
    by eapply hasStatementElement_occurs, extractStatementContent_element. }
  unfold hasIncludes. by rewrite composeSql_unfold, Hnone.
Qed.

(** Whether a text occurs up to letter case is what the matcher finds for
    the text as a pattern under the [i] flag. *)
Lemma occurs_ignore_case_Lit (t s : jsstring) :
  occurs_ignore_case t s <-> occurs true (Lit t) s.
Proof.
  split.
  - intros (before & t' & after & -> & Ht).
    exists before, (t' ++ after), after, []. split; [done|].
    by apply matches_Lit_intro.
  - intros (before & rest & after & cs & -> & Hm).
    apply matches_Lit in Hm as [Hs _].
    apply strip_prefix_split in Hs as (t' & -> & Ht).
    by exists before, t', after.
Qed.

Lemma composeSql_absent_id_witness :
  ~ occurs_ignore_case (js "removeUser")
      (removeXmlComments
         (readFile (one_file (js "UserMapper.xml") plainDocument)
            (js "UserMapper.xml"))) /\
  composeSql 1 (one_file (js "UserMapper.xml") plainDocument)
    (js "UserMapper.xml") (js "removeUser") =
    (NotFound, one_file (js "UserMapper.xml") plainDocument) /\
  hasIncludes (one_file (js "UserMapper.xml") plainDocument)
    (js "UserMapper.xml") (js "removeUser") = false.
Proof.
  split;
    [rewrite occurs_ignore_case_Lit; apply regex_test_occurs;
     vm_compute; reflexivity|].
  apply (composeSql_absent_id 1
           (one_file (js "UserMapper.xml") plainDocument)
           (js "UserMapper.xml") (js "removeUser")).
  rewrite occurs_ignore_case_Lit. apply regex_test_occurs.
  vm_compute; reflexivity.
Defined.
